(** * pickerPrompter.ts: the QuickPick prompter, embedded and verified

    A shallow embedding of [src/shared/ui/pickerPrompter.ts]: the item list
    of a QuickPick, the three ways items are supplied, the placeholder and
    error rows, recency matching, the step estimator and the filter-box
    (free-text) controller.

    JavaScript values are a tagged tree with object identity; functions that
    can throw return a [completion]; methods of the prompter are written in a
    state-and-exception monad over the prompter's fields. *)

From Stdlib Require Import ZArith Ascii.
From stdpp Require Import base option list strings gmap pretty.

(** ** JavaScript values *)

Module JS.

(** An [Error] object: only [name] and [message] are read by the code. *)
Record Error := mkError { name : string; message : string }.

Definition TypeError (msg : string) : Error := mkError "TypeError" msg.

(** The result of evaluating an expression or a call: a value, or a throw. *)
Inductive completion (A : Type) : Type :=
| Normal (a : A)
| Throw (e : Error).
Arguments Normal {A} a.
Arguments Throw {A} e.

(** A settled promise. *)
Inductive Promise (A : Type) : Type :=
| Fulfilled (a : A)
| Rejected (reason : Error).
Arguments Fulfilled {A} a.
Arguments Rejected {A} reason.

(** Values. Objects, arrays and functions carry the address that gives them
    their identity. Numbers are the integral ones and [NaN]; a function is a
    thunk, given with the outcome of the promise it returns when called. *)
#[warnings="-register-all"]
Inductive JsValue : Type :=
| VUndefined
| VNull
| VBool (b : bool)
| VNum (n : Z)
| VNaN
| VStr (s : string)
| VSym (id : nat)
| VBigInt (n : Z)
| VObj (addr : nat) (props : list (string * JsValue))
| VArr (addr : nat) (elems : list JsValue)
| VFun (addr : nat) (returns : Promise JsValue).

(** [typeof v] *)
Definition typeof (v : JsValue) : string :=
  match v with
  | VUndefined => "undefined"
  | VNull | VObj _ _ | VArr _ _ => "object"
  | VBool _ => "boolean"
  | VNum _ | VNaN => "number"
  | VStr _ => "string"
  | VSym _ => "symbol"
  | VBigInt _ => "bigint"
  | VFun _ _ => "function"
  end.

(** [v instanceof Function] *)
Definition instanceof_Function (v : JsValue) : bool :=
  match v with VFun _ _ => true | _ => false end.

(** [a === b] *)
Definition strict_equal (a b : JsValue) : bool :=
  match a, b with
  | VUndefined, VUndefined => true
  | VNull, VNull => true
  | VBool x, VBool y => bool_decide (x = y)
  | VNum x, VNum y => bool_decide (x = y)
  | VStr x, VStr y => bool_decide (x = y)
  | VSym x, VSym y => bool_decide (x = y)
  | VBigInt x, VBigInt y => bool_decide (x = y)
  | VObj x _, VObj y _ => bool_decide (x = y)
  | VArr x _, VArr y _ => bool_decide (x = y)
  | VFun x _, VFun y _ => bool_decide (x = y)
  | _, _ => false
  end.

(** [v === undefined || v === null], the test behind [??] and [??=]. *)
Definition nullish (v : JsValue) : bool :=
  match v with VUndefined | VNull => true | _ => false end.

(** Own data properties of an object, by key. *)
Fixpoint lookup_prop (k : string) (props : list (string * JsValue)) : option JsValue :=
  match props with
  | [] => None
  | (k', v) :: rest => if bool_decide (k = k') then Some v else lookup_prop k rest
  end.

(** [v.k]: reading a property of [undefined] or [null] throws; a missing
    property reads as [undefined]. *)
Definition get_property (v : JsValue) (k : string) : completion JsValue :=
  match v with
  | VUndefined =>
      Throw (TypeError ("Cannot read properties of undefined (reading '" +:+ k +:+ "')"))
  | VNull =>
      Throw (TypeError ("Cannot read properties of null (reading '" +:+ k +:+ "')"))
  | VObj _ props => Normal (default VUndefined (lookup_prop k props))
  | _ => Normal VUndefined
  end.

(** [k in v] for an object. *)
Definition has_property (k : string) (v : JsValue) : bool :=
  match v with
  | VObj _ props => bool_decide (is_Some (lookup_prop k props))
  | _ => false
  end.

(** *** JSON.stringify *)

Definition hex_digit (n : N) : ascii :=
  ascii_of_N (if (n <? 10)%N then 48 + n else 87 + n)%N.

Definition dquote : string := String (ascii_of_N 34) "".

(** QuoteJSONString, character by character. *)
Definition quote_char (c : ascii) : string :=
  let n := N_of_ascii c in
  if (n =? 34)%N then String "\" dquote
  else if (n =? 92)%N then "\\"
  else if (n =? 8)%N then "\b"
  else if (n =? 9)%N then "\t"
  else if (n =? 10)%N then "\n"
  else if (n =? 12)%N then "\f"
  else if (n =? 13)%N then "\r"
  else if (n <? 32)%N then
    "\u00" +:+ String (hex_digit (n / 16)) (String (hex_digit (n mod 16)) "")
  else String c "".

Fixpoint quote_chars (s : string) : string :=
  match s with
  | EmptyString => ""
  | String c rest => quote_char c +:+ quote_chars rest
  end.

Definition QuoteJSONString (s : string) : string :=
  dquote +:+ quote_chars s +:+ dquote.

Fixpoint join_comma (parts : list string) : string :=
  match parts with
  | [] => ""
  | [p] => p
  | p :: rest => p +:+ "," +:+ join_comma rest
  end.

(** [JSON.stringify(v)]: a string, [undefined] ([None]) for what JSON cannot
    express, or a [TypeError] for a BigInt. *)
Fixpoint JSON_stringify (v : JsValue) : completion (option string) :=
  match v with
  | VUndefined | VSym _ | VFun _ _ => Normal None
  | VNull | VNaN => Normal (Some "null")
  | VBool b => Normal (Some (if b then "true" else "false"))
  | VNum n => Normal (Some (pretty n))
  | VStr s => Normal (Some (QuoteJSONString s))
  | VBigInt _ => Throw (TypeError "Do not know how to serialize a BigInt")
  | VObj _ props =>
      let fix members (ps : list (string * JsValue)) : completion (list string) :=
        match ps with
        | [] => Normal []
        | (k, x) :: rest =>
            match JSON_stringify x with
            | Throw e => Throw e
            | Normal r =>
                match members rest with
                | Throw e => Throw e
                | Normal ms =>
                    Normal (match r with
                            | Some s => (QuoteJSONString k +:+ ":" +:+ s) :: ms
                            | None => ms
                            end)
                end
            end
        end in
      match members props with
      | Throw e => Throw e
      | Normal ms => Normal (Some ("{" +:+ join_comma ms +:+ "}"))
      end
  | VArr _ elems =>
      let fix elements (xs : list JsValue) : completion (list string) :=
        match xs with
        | [] => Normal []
        | x :: rest =>
            match JSON_stringify x with
            | Throw e => Throw e
            | Normal r =>
                match elements rest with
                | Throw e => Throw e
                | Normal ms => Normal (default "null" r :: ms)
                end
            end
        end in
      match elements elems with
      | Throw e => Throw e
      | Normal ms => Normal (Some ("[" +:+ join_comma ms +:+ "]"))
      end
  end.

End JS.
Export JS.

(** ** A state-and-exception monad

    A method mutates the fields it reaches through [this] and either returns
    or throws; what it wrote before a throw stays written. For an [async]
    method, [Throw] is the rejection of the promise it returns. *)

Definition M (S A : Type) : Type := S → completion A * S.

Global Instance M_ret {S} : MRet (M S) := λ A a s, (Normal a, s).
Global Instance M_bind {S} : MBind (M S) := λ A B k m s,
  match m s with
  | (Normal a, s') => k a s'
  | (Throw e, s') => (Throw e, s')
  end.

Definition pass {S} : M S unit := λ s, (Normal tt, s).
Definition get {S} : M S S := λ s, (Normal s, s).
Definition modify {S} (f : S → S) : M S unit := λ s, (Normal tt, f s).
Definition throw {S A} (e : Error) : M S A := λ s, (Throw e, s).
Definition lift {S A} (c : completion A) : M S A := λ s, (c, s).

(** [p.catch(h)] on the promise of [m]. *)
Definition catch {S} (m : M S unit) (h : Error → M S unit) : M S unit := λ s,
  match m s with
  | (Normal a, s') => (Normal a, s')
  | (Throw e, s') => h e s'
  end.

(** [p.finally(f)] on the promise of [m]: [f] runs either way; its own throw
    replaces the outcome. *)
Definition finally {S} (m : M S unit) (f : M S unit) : M S unit := λ s,
  match m s with
  | (r, s') =>
      match f s' with
      | (Normal _, s'') => (r, s'')
      | (Throw e, s'') => (Throw e, s'')
      end
  end.

(** [p.then(k)] on an already settled promise [p]. *)
Definition then_ {S A} (p : Promise A) (k : A → M S unit) : M S unit :=
  match p with
  | Fulfilled a => k a
  | Rejected e => throw e
  end.

(** ** Option records *)

(** [DataQuickPickItem<T>]: a [vscode.QuickPickItem] with [BaseItem]'s fields
    and [data]. Optional fields are [None] when absent; [onClick] is a
    callback, known by an identifier and recorded when fired. *)
Record Item := mkItem {
  label : string;
  description : option string;
  detail : option string;
  alwaysShow : option bool;
  data : JsValue;
  invalidSelection : option bool;
  onClick : option nat;
  skipEstimate : option bool;
  recentlyUsed : option bool;
}.

(** Truthiness of an optional boolean and of an optional string. *)
Definition truthy (b : option bool) : bool := default false b.
Definition truthy_string (s : option string) : bool :=
  match s with
  | Some (String _ _) => true
  | _ => false
  end.

Definition set_description (d : option string) (i : Item) : Item :=
  mkItem (label i) d (detail i) (alwaysShow i) (data i) (invalidSelection i)
         (onClick i) (skipEstimate i) (recentlyUsed i).
Definition set_detail (d : option string) (i : Item) : Item :=
  mkItem (label i) (description i) d (alwaysShow i) (data i) (invalidSelection i)
         (onClick i) (skipEstimate i) (recentlyUsed i).
Definition set_label (l : string) (i : Item) : Item :=
  mkItem l (description i) (detail i) (alwaysShow i) (data i) (invalidSelection i)
         (onClick i) (skipEstimate i) (recentlyUsed i).

(** [i.detail ??= msg], on the value of [i]. *)
Definition with_default_detail (msg : string) (i : Item) : Item :=
  match detail i with
  | Some _ => i
  | None => set_detail (Some msg) i
  end.

(** What the module imports and this embedding leaves open: the control
    signals of the wizard, the localisation function and the localised
    [recentlyUsed] text. *)
Record Imports := mkImports {
  WIZARD_BACK : JsValue;
  WIZARD_EXIT : JsValue;
  localize : string → string → string;
  localizedText_recentlyUsed : string;
}.

(** A reference to an item object: one of the two module-level constants; an
    object the caller holds, known by its address and given with the record
    it holds (references with one address are one object, and carry one
    record); or an object made for the occasion, which nothing else refers
    to. *)
Inductive ItemObject :=
| TheDefaultNoItemsItem
| TheDefaultErrorItem
| OwnItem (addr : nat) (i : Item)
| NewItem (i : Item).

(** [string | DataQuickPickItem<T>] *)
Inductive ItemOption :=
| OptString (s : string)
| OptObject (o : ItemObject).

(** [string | DataQuickPickItem<T> | ((err: Error) => string | DataQuickPickItem<T>)] *)
Inductive ErrorItemOption :=
| ErrOption (o : ItemOption)
| ErrFunction (f : Error → ItemOption).

(** [ExtendedQuickPickOptions<T>], the fields the prompter reads. *)
Record ExtendedQuickPickOptions := mkOptions {
  compare : option (Item → Item → Z);
  noItemsFoundItem : option ItemOption;
  errorItem : option ErrorItemOption;
}.

Definition DEFAULT_QUICKPICK_OPTIONS : ExtendedQuickPickOptions :=
  mkOptions None (Some (OptObject TheDefaultNoItemsItem))
            (Some (ErrOption (OptObject TheDefaultErrorItem))).

(** ** The picker and the prompter *)

(** [DataQuickPick<T>]: the widget's fields, kept as they are assigned.
    [activeItems] can hold [undefined] ([None]) after an out-of-range read. *)
Record DataQuickPick := mkPicker {
  items : list Item;
  activeItems : list (option Item);
  selectedItems : list Item;
  value : string;
  step : option Z;
  totalSteps : option Z;
}.

Record QuickPickPrompter := mkPrompter {
  quickPick : DataQuickPick;
  options : ExtendedQuickPickOptions;
  isShowingPlaceholder : option bool;
  _recentItem : JsValue;
  _lastPicked : option Item;
  pendingUpdates : nat;
}.

(** The state a method runs in: the prompter and the module-level object
    [DEFAULT_ERROR_ITEM], which is reachable (and written) through aliases. *)
Record State := mkState {
  this : QuickPickPrompter;
  DEFAULT_ERROR_ITEM : Item;
}.

Definition set_items (l : list Item) (q : DataQuickPick) : DataQuickPick :=
  mkPicker l (activeItems q) (selectedItems q) (value q) (step q) (totalSteps q).
Definition set_activeItems (l : list (option Item)) (q : DataQuickPick) : DataQuickPick :=
  mkPicker (items q) l (selectedItems q) (value q) (step q) (totalSteps q).
Definition set_selectedItems (l : list Item) (q : DataQuickPick) : DataQuickPick :=
  mkPicker (items q) (activeItems q) l (value q) (step q) (totalSteps q).
Definition set_value (v : string) (q : DataQuickPick) : DataQuickPick :=
  mkPicker (items q) (activeItems q) (selectedItems q) v (step q) (totalSteps q).

Definition on_quickPick (f : DataQuickPick → DataQuickPick) (p : QuickPickPrompter)
  : QuickPickPrompter :=
  mkPrompter (f (quickPick p)) (options p) (isShowingPlaceholder p) (_recentItem p)
             (_lastPicked p) (pendingUpdates p).
Definition set_options (o : ExtendedQuickPickOptions) (p : QuickPickPrompter) : QuickPickPrompter :=
  mkPrompter (quickPick p) o (isShowingPlaceholder p) (_recentItem p)
             (_lastPicked p) (pendingUpdates p).
Definition set_isShowingPlaceholder (b : option bool) (p : QuickPickPrompter) : QuickPickPrompter :=
  mkPrompter (quickPick p) (options p) b (_recentItem p) (_lastPicked p) (pendingUpdates p).
Definition set_recentItem_field (v : JsValue) (p : QuickPickPrompter) : QuickPickPrompter :=
  mkPrompter (quickPick p) (options p) (isShowingPlaceholder p) v (_lastPicked p)
             (pendingUpdates p).
Definition set_pendingUpdates (n : nat) (p : QuickPickPrompter) : QuickPickPrompter :=
  mkPrompter (quickPick p) (options p) (isShowingPlaceholder p) (_recentItem p)
             (_lastPicked p) n.

Definition on_this (f : QuickPickPrompter → QuickPickPrompter) (s : State) : State :=
  mkState (f (this s)) (DEFAULT_ERROR_ITEM s).
Definition set_DEFAULT_ERROR_ITEM (i : Item) (s : State) : State :=
  mkState (this s) i.

(** [Array.prototype.sort(cmp)]: a stable sort decided by the sign of [cmp].
    Each element is inserted, left to right, into the sorted prefix before
    the first element it compares below (insertion sort, which is what the
    engine runs on short arrays). *)
Fixpoint sort_insert (cmp : Item → Item → Z) (x : Item) (sorted : list Item) : list Item :=
  match sorted with
  | [] => [x]
  | y :: rest =>
      if (cmp x y <? 0)%Z then x :: sorted else y :: sort_insert cmp x rest
  end.

Definition Array_sort (cmp : Item → Item → Z) (l : list Item) : list Item :=
  foldl (λ sorted x, sort_insert cmp x sorted) [] l.

(** [hashItem] *)
Definition hashItem (i : Item) : string :=
  label i +:+ ":" +:+ default "" (description i) +:+ ":" +:+ default "" (detail i).

(** [applyDescriptionSuffix(suffix)(item)] *)
Definition applyDescriptionSuffix (suffix : string) (i : Item) : Item :=
  if negb (truthy (recentlyUsed i)) then i
  else
    let d := default "" (description i)
             +:+ (if truthy_string (description i) then " (" +:+ suffix +:+ ")" else suffix) in
    set_description (Some d) i.

(** [castDatumToItems(...datum)] *)
Definition castDatumToItems (datum : list JsValue) : list Item :=
  (λ d, mkItem "" None None None d None None None None) <$> datum.

(** [isDataQuickPickItem(obj)]: the property read of [null] throws. *)
Definition isDataQuickPickItem (obj : JsValue) : completion bool :=
  if bool_decide (typeof obj = "object") then
    match get_property obj "label" with
    | Throw e => Throw e
    | Normal l => Normal (bool_decide (typeof l = "string") && has_property "data" obj)
    end
  else Normal false.

(** [Array.prototype.find] with a predicate that can throw. *)
Fixpoint find_completion {A} (p : A → completion bool) (l : list A) : completion (option A) :=
  match l with
  | [] => Normal None
  | x :: rest =>
      match p x with
      | Throw e => Throw e
      | Normal true => Normal (Some x)
      | Normal false => find_completion p rest
      end
  end.

(** The predicate [recoverItemFromData] hands to [find]. *)
Definition recovers (d : JsValue) (stringified : option string) (i : Item) : completion bool :=
  if bool_decide (typeof (data i) = "object") then
    match JSON_stringify (data i) with
    | Throw e => Throw e
    | Normal s => Normal (bool_decide (stringified = s))
    end
  else if bool_decide (typeof (data i) = "function") then Normal false
  else Normal (strict_equal d (data i)).

(** [recoverItemFromData(data, items)] *)
Definition recoverItemFromData (d : JsValue) (l : list Item) : completion (option Item) :=
  match JSON_stringify d with
  | Throw e => Throw e
  | Normal stringified => find_completion (recovers d stringified) l
  end.

Section Prompter.

Context (imports : Imports).

(** [DEFAULT_NO_ITEMS_ITEM] and the object literal [DEFAULT_ERROR_ITEM]
    starts as. *)
Definition DEFAULT_NO_ITEMS_ITEM : Item :=
  mkItem (localize imports "AWS.picker.dynamic.noItemsFound.label" "[No items found]")
         None
         (Some (localize imports "AWS.picker.dynamic.noItemsFound.detail" "Click here to go back"))
         (Some true) (WIZARD_BACK imports) None None None None.

Definition DEFAULT_ERROR_ITEM_literal : Item :=
  mkItem (localize imports "AWS.picker.dynamic.error.label" "[Error loading items]")
         None None (Some true) (WIZARD_BACK imports) None None None None.

(** The object an [ItemObject] refers to, in the current state. *)
Definition deref (s : State) (o : ItemObject) : Item :=
  match o with
  | TheDefaultNoItemsItem => DEFAULT_NO_ITEMS_ITEM
  | TheDefaultErrorItem => DEFAULT_ERROR_ITEM s
  | OwnItem _ i => i
  | NewItem i => i
  end.

(** [resolveItemOption(base, item)]: a string gives a copy of [base] with the
    label replaced; an item is returned as it is, the same object. *)
Definition resolveItemOption (base : Item) (item : ItemOption) : Item + ItemObject :=
  match item with
  | OptString l => inl (set_label l base)
  | OptObject o => inr o
  end.

(** [clearItems()] *)
Definition clearItems : M State unit :=
  modify (on_this (λ p, set_isShowingPlaceholder (Some false)
                           (on_quickPick (set_items []) p))).

(** [selectItems(...items)]: reading [label] of an [undefined] argument
    throws; with no label matching, [items[0]] is taken, whatever it is. *)
Fixpoint labels_of (args : list (option Item)) : completion (list string) :=
  match args with
  | [] => Normal []
  | None :: _ => Throw (TypeError "Cannot read properties of undefined (reading 'label')")
  | Some i :: rest =>
      match labels_of rest with
      | Throw e => Throw e
      | Normal ls => Normal (label i :: ls)
      end
  end.

Definition selectItems (args : list (option Item)) : M State unit :=
  ls ← lift (labels_of args);
  let selected : gset string := list_to_set ls in
  modify (on_this (on_quickPick (λ q,
    set_activeItems (Some <$> filter (λ i, label i ∈ selected) (items q)) q)));;
  s ← get;
  if bool_decide (length (activeItems (quickPick (this s))) = 0)
  then modify (on_this (on_quickPick (λ q, set_activeItems [items q !! 0] q)))
  else pass.

(** The comparator of [appendItems]. *)
Definition sort (o : ExtendedQuickPickOptions) (a b : Item) : Z :=
  if truthy (recentlyUsed a) then (-1)%Z
  else if truthy (recentlyUsed b) then 1%Z
  else match compare o with
       | Some f => f a b
       | None => 0%Z
       end.

(** [appendItems(items)] *)
Definition appendItems (new : list Item) : M State unit :=
  s ← get;
  let recent := activeItems (quickPick (this s)) in
  modify (on_this (λ p, on_quickPick (λ q,
    set_items (Array_sort (sort (options p))
                 (items q ++ (applyDescriptionSuffix (localizedText_recentlyUsed imports) <$> new)))
              q) p));;
  selectItems recent.

(** [checkEmpty(pendingUpdate = this.pendingUpdates > 0)] *)
Definition checkEmpty (pendingUpdate : option bool) : M State unit :=
  s ← get;
  let pending := default (bool_decide (0 < pendingUpdates (this s))) pendingUpdate in
  if bool_decide (length (items (quickPick (this s))) = 0) && negb pending then
    modify (on_this (set_isShowingPlaceholder (Some true)));;
    modify (λ s, on_this (on_quickPick (set_items
      match noItemsFoundItem (options (this s)) with
      | Some o =>
          [match resolveItemOption DEFAULT_NO_ITEMS_ITEM o with
           | inl i => i
           | inr r => deref s r
           end]
      | None => []
      end)) s);;
    selectItems []
  else pass.

(** Whether an [errorItem] option is falsy: absent, or the empty string. *)
Definition falsy_errorItem (o : option ErrorItemOption) : bool :=
  match o with
  | None | Some (ErrOption (OptString EmptyString)) => true
  | _ => false
  end.

(** A write to the caller's object at [addr], seen through every reference
    the options hold to it: [noItemsFoundItem], [errorItem], and what an
    [errorItem] function returns. *)
Definition written_object (addr : nat) (w : Item) (o : ItemObject) : ItemObject :=
  match o with
  | OwnItem a _ => if decide (a = addr) then OwnItem a w else o
  | _ => o
  end.
Definition written_option (addr : nat) (w : Item) (o : ItemOption) : ItemOption :=
  match o with
  | OptString _ => o
  | OptObject r => OptObject (written_object addr w r)
  end.
Definition written_error (addr : nat) (w : Item) (eo : ErrorItemOption) : ErrorItemOption :=
  match eo with
  | ErrOption o => ErrOption (written_option addr w o)
  | ErrFunction f => ErrFunction (λ e, written_option addr w (f e))
  end.
Definition written (addr : nat) (w : Item) (o : ExtendedQuickPickOptions)
  : ExtendedQuickPickOptions :=
  mkOptions (compare o) (written_option addr w <$> noItemsFoundItem o)
            (written_error addr w <$> errorItem o).

(** [resolvedItem.detail ??= error.message], on the object [resolvedItem]
    refers to: a copy and an object made for the occasion are written in
    place; a module-level constant and an object of the caller's are written
    where they live, for every holder of a reference to see. The records
    already in the list are values: a record of the list that is the object
    written is not followed. *)
Definition assign_detail_if_nullish (msg : string) (r : Item + ItemObject) : M State Item :=
  let write := with_default_detail msg in
  match r with
  | inl i => mret (write i)
  | inr TheDefaultNoItemsItem => mret (write DEFAULT_NO_ITEMS_ITEM)
  | inr TheDefaultErrorItem =>
      s ← get;
      modify (set_DEFAULT_ERROR_ITEM (write (DEFAULT_ERROR_ITEM s)));;
      mret (write (DEFAULT_ERROR_ITEM s))
  | inr (OwnItem addr i) =>
      modify (on_this (λ p, set_options (written addr (write i) (options p)) p));;
      mret (write i)
  | inr (NewItem i) => mret (write i)
  end.

(** [addErrorItem(error)] *)
Definition addErrorItem (error : Error) : M State unit :=
  s ← get;
  let errorOption := errorItem (options (this s)) in
  match errorOption with
  | None => pass
  | Some eo =>
      if falsy_errorItem errorOption then pass
      else
        modify (on_this (set_isShowingPlaceholder (Some true)));;
        let evalOption := match eo with
                          | ErrFunction f => f error
                          | ErrOption o => o
                          end in
        let resolvedItem := resolveItemOption (DEFAULT_ERROR_ITEM s) evalOption in
        i ← assign_detail_if_nullish (message error) resolvedItem;
        appendItems [i]
  end.

(** One result of [iterator.next()], with whether the picker had been hidden
    by the time it arrived. *)
Record IteratorResult := mkIteratorResult {
  iter_value : option (Item + list Item);
  done : bool;
}.

Record Pull := mkPull {
  next : Promise IteratorResult;
  hidden : bool;
}.

(** [loadFromAsyncIterable(items)]: the stream is given by the results of its
    successive [next()] calls; a stream that has no more to give is done. *)
Fixpoint loadFromAsyncIterable (pulls : list Pull) : M State unit :=
  match pulls with
  | [] => pass
  | p :: rest =>
      match next p with
      | Rejected e => throw e
      | Fulfilled r =>
          match iter_value r with
          | Some (inl i) => appendItems [i]
          | Some (inr l) => appendItems l
          | None => pass
          end;;
          if done r then pass
          else if hidden p then pass
          else loadFromAsyncIterable rest
      end
  end.

(** [ItemLoadTypes<T>]: an array, a promise (with what it settles to), or an
    async iterable. *)
Inductive ItemLoadTypes :=
| ItemsArray (l : list Item)
| ItemsPromise (p : Promise (list Item))
| ItemsAsyncIterable (pulls : list Pull).

(** Modelled from the spec: [QuickInputPrompter.addBusyUpdate] of
    quickInput.ts, which is not among the sources. The update counts as
    pending from the call until it settles, and its outcome is passed on. *)
Definition addBusyUpdate (update : M State unit) (disableInput : option bool) : M State unit :=
  modify (on_this (λ p, set_pendingUpdates (S (pendingUpdates p)) p));;
  finally update (modify (on_this (λ p, set_pendingUpdates (pred (pendingUpdates p)) p))).

(** [handleError] of [loadItems] (the log line is left out). *)
Definition handleError (err : Error) : M State unit := addErrorItem err.

(** [loadItems(items, disableInput)]. The callbacks on the supply run with
    nothing else in between, as the method's comment assumes. *)
Definition loadItems (supply : ItemLoadTypes) (disableInput : option bool) : M State unit :=
  s ← get;
  (if truthy (isShowingPlaceholder (this s)) then clearItems else pass);;
  match supply with
  | ItemsArray l => appendItems l;; checkEmpty None
  | ItemsPromise p =>
      let loader := then_ p appendItems in
      let withHandlers :=
        finally (catch loader handleError)
                (s ← get; checkEmpty (Some (bool_decide (1 < pendingUpdates (this s))))) in
      addBusyUpdate withHandlers disableInput
  | ItemsAsyncIterable pulls =>
      let loader := loadFromAsyncIterable pulls in
      let withHandlers :=
        finally (catch loader handleError)
                (s ← get; checkEmpty (Some (bool_decide (1 < pendingUpdates (this s))))) in
      addBusyUpdate withHandlers disableInput
  end.

(** [isRecentItem(item)] *)
Definition isRecentItem (s : State) (i : Item) : completion bool :=
  let recent := _recentItem (this s) in
  if strict_equal recent VUndefined then Normal false
  else
    match isDataQuickPickItem recent with
    | Throw e => Throw e
    | Normal false =>
        match recoverItemFromData recent (items (quickPick (this s))) with
        | Throw e => Throw e
        | Normal recovered =>
            Normal (bool_decide (Some (label i) = label <$> recovered))
        end
    | Normal true =>
        match get_property recent "label" with
        | Throw e => Throw e
        | Normal l => Normal (strict_equal (VStr (label i)) l)
        end
    end.

(** [matchRecentItem()] *)
Definition matchRecentItem : M State unit :=
  s ← get;
  found ← lift (find_completion (isRecentItem s) (items (quickPick (this s))));
  match found with
  | Some i =>
      selectItems [Some i];;
      modify (on_this (set_recentItem_field VUndefined))
  | None =>
      if bool_decide (length (activeItems (quickPick (this s))) = 0)
      then selectItems []
      else pass
  end.

(** [set recentItem(response)] of [QuickPickPrompter] *)
Definition set_recentItem (response : JsValue) : M State unit :=
  modify (on_this (set_recentItem_field response));;
  matchRecentItem.

End Prompter.

(** ** Accepting a selection *)

(** What can be observed of a prompt: callbacks fired, and calls of the
    [resolve] function of the promise [promptUser] waits on. *)
Inductive PromptEvent :=
| Clicked (callback : nat)
| Resolved (chosen : list Item).

(** The picker of a shown prompt, the promise [promptUser] waits on
    ([None] while it is pending) and the events so far. *)
Record Prompt := mkPrompt {
  picker : DataQuickPick;
  choices : option (list Item);
  events : list PromptEvent;
}.

(** [resolve(items)]: settles the promise if it is still pending. *)
Definition resolve (l : list Item) (p : Prompt) : Prompt :=
  mkPrompt (picker p)
           (match choices p with
            | None => Some l
            | Some settled => Some settled
            end)
           (events p ++ [Resolved l]).

(** [item.onClick !== undefined ? item.onClick() : undefined], for each
    selected item in order. *)
Definition fire_onClick (l : list Item) (p : Prompt) : Prompt :=
  mkPrompt (picker p) (choices p)
           (events p ++ omap (λ i, Clicked <$> onClick i) l).

(** [acceptItems(picker, resolve)] *)
Definition acceptItems (p : Prompt) : Prompt :=
  let selected := selectedItems (picker p) in
  if bool_decide (length selected = 0) then p
  else
    let p' := fire_onClick selected p in
    if existsb (λ i, truthy (invalidSelection i)) selected then p'
    else resolve selected p'.

(** The end of [promptUser]: [choices[0].data], called and awaited when it
    is a function. *)
Definition prompt_result (chosen : list Item) : Promise JsValue :=
  match chosen with
  | [] => Rejected (TypeError "Cannot read properties of undefined (reading 'data')")
  | c :: _ =>
      match data c with
      | VFun _ returns => returns
      | d => Fulfilled d
      end
  end.

(** ** The step estimator *)

Inductive EstimatorEvent :=
| ThunkCalled (addr : nat)
| EstimatorCalled (arg : JsValue).

(** The closure of [applyStepEstimator]: the [estimates] cache, and the calls
    made so far to item thunks and to the estimator. *)
Record Estimation := mkEstimation {
  estimates : gmap string Z;
  calls : list EstimatorEvent;
}.

Definition cache (hash : string) (n : Z) : M Estimation unit :=
  modify (λ e, mkEstimation (<[hash := n]> (estimates e)) (calls e)).
Definition record_call (c : EstimatorEvent) : M Estimation unit :=
  modify (λ e, mkEstimation (estimates e) (calls e ++ [c])).

(** [transform?.(data) ?? data] *)
Definition transformed (transform : option (JsValue → JsValue)) (d : JsValue) : JsValue :=
  match transform with
  | None => d
  | Some f => if nullish (f d) then d else f d
  end.

(** [estimate(item)] of [applyStepEstimator]; a [Throw] is the rejection of
    the promise returned on the thunk path. *)
Definition estimate (estimator : JsValue → Z) (transform : option (JsValue → JsValue))
    (item : Item) : M Estimation Z :=
  if truthy (skipEstimate item) || truthy (invalidSelection item) then mret 0%Z
  else
    let hash := hashItem item in
    e ← get;
    match estimates e !! hash with
    | Some n => mret n
    | None =>
        match data item with
        | VFun addr returns =>
            if negb (bool_decide (skipEstimate item = Some false)) then
              cache hash 0%Z;; mret 0%Z
            else
              record_call (ThunkCalled addr);;
              match returns with
              | Rejected err => throw err
              | Fulfilled d =>
                  let result := transformed transform d in
                  record_call (EstimatorCalled result);;
                  cache hash (estimator result);;
                  mret (estimator result)
              end
        | d =>
            let arg := transformed transform d in
            record_call (EstimatorCalled arg);;
            cache hash (estimator arg);;
            mret (estimator arg)
        end
    end.

(** ** Filter-box input *)

(** [CUSTOM_USER_INPUT = Symbol()] *)
Definition CUSTOM_USER_INPUT : JsValue := VSym 0.

(** What a validator call returns: a result, or a promise of one (given with
    the result it will resolve to). *)
Inductive Validation :=
| Immediately (result : option string)
| Eventually (result : option string).

(** [FilterBoxInput<T>] *)
Record FilterBoxInput := mkFilterBoxInput {
  input_label : string;
  transform : string → JsValue;
  inverse : option (JsValue → string);
  validator : option (string → Validation);
}.

(** A promise returned by the validator: the text it was requested for, what
    it resolves to, whether it has, and the [then] callbacks waiting on it,
    each known by the [items] its [update] call closed over. *)
Record ValidationPromise := mkValidationPromise {
  requested_for : string;
  outcome : option string;
  settled : bool;
  reactions : list (list Item);
}.

(** A [FilterBoxQuickPickPrompter]: the prompter, its settings, and the
    variables [addFilterBoxInput] closes over. An armed [timer] is the
    timeout's closure: the promise [validate] and the [items] of its
    [update] call. *)
Record FilterBox := mkFilterBox {
  base : State;
  settings : FilterBoxInput;
  timer : option (nat * list Item);
  pendingValidation : option nat;
  pendingValue : option string;
  validations : list ValidationPromise;
}.

Definition on_base (f : State → State) (b : FilterBox) : FilterBox :=
  mkFilterBox (f (base b)) (settings b) (timer b) (pendingValidation b) (pendingValue b)
              (validations b).
Definition set_timer (t : option (nat * list Item)) (b : FilterBox) : FilterBox :=
  mkFilterBox (base b) (settings b) t (pendingValidation b) (pendingValue b) (validations b).
Definition set_pendingValidation (p : option nat) (b : FilterBox) : FilterBox :=
  mkFilterBox (base b) (settings b) (timer b) p (pendingValue b) (validations b).
Definition set_pendingValue (v : option string) (b : FilterBox) : FilterBox :=
  mkFilterBox (base b) (settings b) (timer b) (pendingValidation b) v (validations b).
Definition set_validations (l : list ValidationPromise) (b : FilterBox) : FilterBox :=
  mkFilterBox (base b) (settings b) (timer b) (pendingValidation b) (pendingValue b) l.

Definition picker_of (b : FilterBox) : DataQuickPick := quickPick (this (base b)).
Definition on_picker (f : DataQuickPick → DataQuickPick) : FilterBox → FilterBox :=
  on_base (on_this (on_quickPick f)).

(** [createItem(detail = '', invalidSelection = false)] *)
Definition createItem (b : FilterBox) (detail : option string) (invalid : bool) : Item :=
  mkItem (input_label (settings b)) (Some (value (picker_of b))) (Some (default "" detail))
         (Some true) CUSTOM_USER_INPUT (Some invalid) None None None.

(** [!!result] for a validation result. *)
Definition reports_failure (result : option string) : bool := truthy_string result.

(** What [validate] is bound to in [update]. *)
Inductive Validate :=
| ValidatePromise (p : nat)
| ValidateResult (r : option string).

(** [pendingValidation ?? validator(value)]: the validator is called only
    when no validation is pending; a promise it returns is new. *)
Definition validate_for (v : string) (b : FilterBox) : Validate * FilterBox :=
  match pendingValidation b with
  | Some p => (ValidatePromise p, b)
  | None =>
      match validator (settings b) with
      | None => (ValidateResult None, b)
      | Some f =>
          match f v with
          | Immediately r => (ValidateResult r, b)
          | Eventually r =>
              (ValidatePromise (length (validations b)),
               set_validations (validations b ++ [mkValidationPromise v r false []]) b)
          end
      end
  end.

(** [update(value = '')] *)
Definition update (v : string) (b : FilterBox) : FilterBox :=
  let items := filter (λ i, negb (strict_equal (data i) CUSTOM_USER_INPUT))
                      (items (picker_of b)) in
  let b := set_timer None b in
  if bool_decide (v ≠ "") then
    let '(validate, b) := validate_for v b in
    match validate with
    | ValidatePromise p =>
        let b := set_pendingValidation (Some p) b in
        let b := set_pendingValue (Some (default v (pendingValue b))) b in
        let b := set_timer (Some (p, items)) b in
        on_picker (set_items (createItem b (Some "Checking...") true :: items)) b
    | ValidateResult r =>
        on_picker (set_items (createItem b r (reports_failure r) :: items)) b
    end
  else on_picker (set_items items) b.

(** The callback given to [validate.then] in the timeout, run with the
    promise's [result]; [items] is what its [update] call closed over. *)
Definition validated (items : list Item) (result : option string) (b : FilterBox) : FilterBox :=
  let validatedValue := pendingValue b in
  let b := set_pendingValue None (set_pendingValidation None b) in
  if bool_decide (validatedValue ≠ Some (value (picker_of b))) then
    update (value (picker_of b)) b
  else
    on_picker (set_items (createItem b result (reports_failure result) :: items)) b.

Definition busy (n : nat → nat) : FilterBox → FilterBox :=
  on_base (on_this (λ p, set_pendingUpdates (n (pendingUpdates p)) p)).

(** What happens to a filter box: the user changes the text, the armed
    timeout fires, a validator promise resolves. *)
Inductive Event :=
| ChangeValue (text : string)
| TimeoutFires
| Resolves (promise : nat).

(** One event. A callback attached to a promise that has already resolved
    runs at once; callbacks waiting on a promise run in the order they were
    attached when it resolves. *)
Definition handle (ev : Event) (b : FilterBox) : FilterBox :=
  match ev with
  | ChangeValue text => update text (on_picker (set_value text) b)
  | TimeoutFires =>
      match timer b with
      | None => b
      | Some (p, items) =>
          let b := busy S (set_timer None b) in
          match validations b !! p with
          | None => b
          | Some v =>
              if settled v then busy pred (validated items (outcome v) b)
              else
                set_validations
                  (<[p := mkValidationPromise (requested_for v) (outcome v) false
                                              (reactions v ++ [items])]> (validations b))
                  b
          end
      end
  | Resolves p =>
      match validations b !! p with
      | None => b
      | Some v =>
          if settled v then b
          else
            let b := set_validations
                       (<[p := mkValidationPromise (requested_for v) (outcome v) true []]>
                          (validations b)) b in
            foldl (λ b items, busy pred (validated items (outcome v) b)) b (reactions v)
      end
  end.

Definition run (evs : list Event) (b : FilterBox) : FilterBox :=
  foldl (λ b ev, handle ev b) b evs.

(** [addFilterBoxInput()], at construction: [update(picker.value)]. *)
Definition addFilterBoxInput (b : FilterBox) : FilterBox := update (value (picker_of b)) b.

(** The synthetic record of the list, if it shows one. *)
Definition inputItem (b : FilterBox) : option Item :=
  head (filter (λ i, strict_equal (data i) CUSTOM_USER_INPUT) (items (picker_of b))).





(** ** Construction *)

(** A picker as [createQuickPick] gets it from the window: empty. *)
Definition new_picker : DataQuickPick := mkPicker [] [] [] "" None None.

(** [new QuickPickPrompter(quickPick, options)] *)
Definition new_QuickPickPrompter (q : DataQuickPick) (o : ExtendedQuickPickOptions)
  : QuickPickPrompter :=
  mkPrompter q o None VUndefined None 0.

(** The state right after the module is loaded and a prompter is made. *)
Definition initial_state (imports : Imports) (o : ExtendedQuickPickOptions) : State :=
  mkState (new_QuickPickPrompter new_picker o) (DEFAULT_ERROR_ITEM_literal imports).

(** An instance of the imports, for running the definitions: control
    signals as two distinct objects, messages in the default language. *)
Definition sample_imports : Imports :=
  mkImports (VObj 1 [("type", VNum 2)]) (VObj 2 [("type", VNum 1)])
            (λ _ message, message) "recently used".

(** An item as a caller writes one: a label and data. *)
Definition item (l : string) (d : JsValue) : Item :=
  mkItem l None None None d None None None None.

(** [new FilterBoxQuickPickPrompter(quickPick, options)] *)
Definition new_FilterBoxQuickPickPrompter (s : State) (input : FilterBoxInput) : FilterBox :=
  addFilterBoxInput (mkFilterBox s input None None None []).


(** Sample settings: a name of three characters, checked asynchronously;
    [inverse] gives back the text a result was made from. *)
Definition name_input : FilterBoxInput :=
  mkFilterBoxInput "Enter a name"
    (λ text, VObj 9 [("name", VStr text)])
    (Some (λ v, match v with
                | VObj _ [(_, VStr text)] => text
                | _ => ""
                end))
    (Some (λ text, if bool_decide (String.length text = 3) then Eventually None
                   else Eventually (Some "Must be 3 characters long"))).

Definition name_box : FilterBox :=
  new_FilterBoxQuickPickPrompter (initial_state sample_imports DEFAULT_QUICKPICK_OPTIONS)
                                 name_input.


(** A prompter that shows the given records. *)
Definition showing (l : list Item) : State :=
  mkState (new_QuickPickPrompter (mkPicker l [] [] "" None None) DEFAULT_QUICKPICK_OPTIONS)
          (DEFAULT_ERROR_ITEM_literal sample_imports).

(** An informational record with a callback, and a thunk-valued record that
    asks for its estimate. *)
Definition info_item : Item :=
  mkItem "info" None None None VUndefined (Some true) (Some 7) None None.
Definition next_item : Item :=
  mkItem "next" None None None (VFun 5 (Fulfilled (VStr "r"))) None None (Some false) None.
Definition used_item : Item :=
  mkItem "a" None None None (VNum 2) None None None (Some true).

(** ** Notions the statements use *)

(** The records of a list that are not the synthetic one. *)
Definition others (l : list Item) : list Item :=
  filter (λ i, negb (strict_equal (data i) CUSTOM_USER_INPUT)) l.

(** A filter box given by the fields the controller reads and writes; the
    rest is as in [b]. *)
Definition filter_box (b : FilterBox) (l : list Item) (text : string) (updates : nat)
    (tm : option (nat * list Item)) (pending : option nat) (pendingFor : option string)
    (vs : list ValidationPromise) : FilterBox :=
  mkFilterBox
    (mkState
       (mkPrompter
          (mkPicker l (activeItems (picker_of b)) (selectedItems (picker_of b)) text
                    (step (picker_of b)) (totalSteps (picker_of b)))
          (options (this (base b))) (isShowingPlaceholder (this (base b)))
          (_recentItem (this (base b))) (_lastPicked (this (base b))) updates)
       (DEFAULT_ERROR_ITEM (base b)))
    (settings b) tm pending pendingFor vs.

(** The synthetic record for a text, with a detail and a verdict. *)
Definition synthetic (b : FilterBox) (text : string) (detail : string) (invalid : bool) : Item :=
  mkItem (input_label (settings b)) (Some text) (Some detail) (Some true) CUSTOM_USER_INPUT
         (Some invalid) None None None.

(** What [selectItems] leaves highlighted, given the labels asked for. *)
Definition highlighted (ls : list string) (l : list Item) : list (option Item) :=
  let matching := Some <$> filter (λ i, label i ∈ (list_to_set ls : gset string)) l in
  if bool_decide (length matching = 0) then [l !! 0] else matching.

(** The list [appendItems] assigns. *)
Definition appended (imports : Imports) (s : State) (new : list Item) : list Item :=
  Array_sort (sort (options (this s)))
    (items (quickPick (this s))
     ++ (applyDescriptionSuffix (localizedText_recentlyUsed imports) <$> new)).

(** The state [loadItems] works on after its first statement. *)
Definition cleared (s : State) : State :=
  if truthy (isShowingPlaceholder (this s)) then (clearItems s).2 else s.

(** [recentlyUsed] records first: a run of flagged records, then the rest. *)
Definition recent_first (l : list Item) : Prop :=
  ∃ l1 l2, l = l1 ++ l2
    ∧ Forall (λ i, truthy (recentlyUsed i) = true) l1
    ∧ Forall (λ i, truthy (recentlyUsed i) = false) l2.

(** The criterion of recovery: the record's value is an object with the
    recent value's serialisation, or a value that is no thunk and is
    identical to the recent value. *)
Definition recency_match (recent : JsValue) (stringified : option string) (i : Item) : Prop :=
  (typeof (data i) = "object" ∧ JSON_stringify (data i) = Normal stringified)
  ∨ (typeof (data i) ≠ "object" ∧ typeof (data i) ≠ "function"
     ∧ strict_equal recent (data i) = true).

(** [x] is the first element of [l] that satisfies [P]. *)
Definition first_such {A} (P : A → Prop) (l : list A) (x : A) : Prop :=
  ∃ k, l !! k = Some x ∧ P x ∧ ∀ j y, j < k → l !! j = Some y → ¬ P y.

(** ** The rest of the prompter *)

(** [clearAndLoadItems(items)] *)
Definition clearAndLoadItems (imports : Imports) (supply : ItemLoadTypes) : M State unit :=
  s ← get;
  let previousSelected := activeItems (quickPick (this s)) in
  clearItems;;
  loadItems imports supply None;;
  selectItems previousSelected.

(** [refreshItems()]. [loader] is what [this._itemLoader()] returns, [None]
    when no loader is set; the loader's cache is not part of the state. *)
Definition refreshItems (imports : Imports) (loader : option ItemLoadTypes) : M State unit :=
  match loader with
  | None => pass
  | Some supply => clearItems;; loadItems imports supply None
  end.

(** [LabelQuickPickItem<T>]: a [vscode.QuickPickItem], which has no [data]. *)
Record LabelQuickPickItem := mkLabelItem {
  item_label : string;
  item_description : option string;
  item_detail : option string;
  item_alwaysShow : option bool;
}.

(** [{ data: item.label, ...item }] *)
Definition with_label_as_data (i : LabelQuickPickItem) : Item :=
  mkItem (item_label i) (item_description i) (item_detail i) (item_alwaysShow i)
         (VStr (item_label i)) None None None None.

(** The argument of [createLabelQuickPick]: an array, or a promise of one. *)
Inductive LabelItems :=
| LabelArray (l : list LabelQuickPickItem)
| LabelPromise (p : Promise (list LabelQuickPickItem)).

(** What [createLabelQuickPick] hands to [createQuickPick]. *)
Definition label_supply (x : LabelItems) : ItemLoadTypes :=
  match x with
  | LabelArray l => ItemsArray (with_label_as_data <$> l)
  | LabelPromise (Fulfilled l) => ItemsPromise (Fulfilled (with_label_as_data <$> l))
  | LabelPromise (Rejected e) => ItemsPromise (Rejected e)
  end.

(** [createQuickPick(items, options)] without [filterBoxInput], up to the
    load it starts; [merged] is [{ ...DEFAULT_QUICKPICK_OPTIONS, ...options }]. *)
Definition createQuickPick (imports : Imports) (supply : ItemLoadTypes)
    (merged : ExtendedQuickPickOptions) : completion unit * State :=
  loadItems imports supply None (initial_state imports merged).

(** [createLabelQuickPick(items)] with no options. *)
Definition createLabelQuickPick (imports : Imports) (x : LabelItems) : completion unit * State :=
  createQuickPick imports (label_supply x) DEFAULT_QUICKPICK_OPTIONS.

(** The listeners [promptUser] installs: accepting, with the selection the
    picker reports, and hiding. *)
Inductive PickerEvent :=
| DidAccept (selected : list Item)
| DidHide.

(** [picker.onDidHide(() => resolve(castDatumToItems(WIZARD_EXIT)))] *)
Definition onDidHide (imports : Imports) (p : Prompt) : Prompt :=
  resolve (castDatumToItems [WIZARD_EXIT imports]) p.

Definition on_event (imports : Imports) (p : Prompt) (ev : PickerEvent) : Prompt :=
  match ev with
  | DidAccept selected =>
      acceptItems (mkPrompt (set_selectedItems selected (picker p)) (choices p) (events p))
  | DidHide => onDidHide imports p
  end.

Definition on_events (imports : Imports) (evs : list PickerEvent) (p : Prompt) : Prompt :=
  foldl (on_event imports) p evs.

(** ** The rest of the step estimator *)

(** What a call of [estimate] returns: a number, or the promise chained on
    the promise of the thunk. *)
Inductive Estimating :=
| Estimated (n : Z)
| Awaiting (hash : string) (returned : Promise JsValue).

(** [estimate(item)] up to its return: the thunk is called, the callbacks on
    its promise have not run. *)
Definition estimate_call (estimator : JsValue → Z) (transform : option (JsValue → JsValue))
    (item : Item) : M Estimation Estimating :=
  if truthy (skipEstimate item) || truthy (invalidSelection item) then mret (Estimated 0%Z)
  else
    let hash := hashItem item in
    e ← get;
    match estimates e !! hash with
    | Some n => mret (Estimated n)
    | None =>
        match data item with
        | VFun addr returns =>
            if negb (bool_decide (skipEstimate item = Some false)) then
              cache hash 0%Z;; mret (Estimated 0%Z)
            else
              record_call (ThunkCalled addr);;
              mret (Awaiting hash returns)
        | d =>
            let arg := transformed transform d in
            record_call (EstimatorCalled arg);;
            cache hash (estimator arg);;
            mret (Estimated (estimator arg))
        end
    end.

(** The callbacks chained on the promise of the thunk, once it has settled. *)
Definition estimate_then (estimator : JsValue → Z) (transform : option (JsValue → JsValue))
    (r : Estimating) : M Estimation Z :=
  match r with
  | Estimated n => mret n
  | Awaiting _ (Rejected err) => throw err
  | Awaiting hash (Fulfilled d) =>
      let result := transformed transform d in
      record_call (EstimatorCalled result);;
      cache hash (estimator result);;
      mret (estimator result)
  end.









(** ** The rest of the filter box *)

(** The transform the constructor of [FilterBoxQuickPickPrompter] installs. *)
Definition FilterBox_transform (b : FilterBox) (selection : JsValue) : JsValue :=
  if strict_equal selection CUSTOM_USER_INPUT then
    let result := transform (settings b) (value (picker_of b)) in
    if nullish result then selection else result
  else selection.

(** The states a filter box goes through: from its construction, by the
    events of [handle]. *)
Inductive reachable : FilterBox → Prop :=
| reachable_new (s : State) (input : FilterBoxInput) :
    reachable (new_FilterBoxQuickPickPrompter s input)
| reachable_handle (ev : Event) (b : FilterBox) :
    reachable b → reachable (handle ev b).

(** What a reachable filter box keeps: the synthetic record is shown exactly
    when the text is not empty, first in the list and once, with the text
    as its description; the lists its callbacks closed over hold no
    synthetic record, and a text awaiting validation is not empty. *)
Definition shows_text (b : FilterBox) : Prop :=
  ∃ rest, others rest = rest
    ∧ ((value (picker_of b) = "" ∧ items (picker_of b) = rest)
       ∨ (value (picker_of b) ≠ ""
          ∧ ∃ detail invalid,
              items (picker_of b) = synthetic b (value (picker_of b)) detail invalid :: rest)).

Definition closures_clean (b : FilterBox) : Prop :=
  (∀ p captured, timer b = Some (p, captured) → others captured = captured)
  ∧ (∀ v captured, v ∈ validations b → captured ∈ reactions v → others captured = captured)
  ∧ pendingValue b ≠ Some "".

(** The stream that yields the given batches, none of them the last. *)
Definition yields (batches : list (list Item)) : list Pull :=
  (λ l, mkPull (Fulfilled (mkIteratorResult (Some (inr l)) false)) false) <$> batches.

(** ** Notions of the further properties *)

(** A pull after which the loop of [loadFromAsyncIterable] ends. *)
Definition last_pull (p : Pull) : Prop :=
  match next p with
  | Rejected _ => True
  | Fulfilled r => done r = true ∨ hidden p = true
  end.






(** * Properties *)

(** ** The definitions at work *)

Example stringify_object :
  JSON_stringify (VObj 1 [("a", VNum 1); ("b", VArr 2 [VStr "x"; VUndefined]); ("c", VUndefined)])
  = Normal (Some ("{" +:+ dquote +:+ "a" +:+ dquote +:+ ":1," +:+ dquote +:+ "b" +:+ dquote
                  +:+ ":[" +:+ dquote +:+ "x" +:+ dquote +:+ ",null]}")).
Proof. vm_compute. reflexivity. Qed.

Example stringify_bigint_throws :
  JSON_stringify (VArr 1 [VBigInt 1])
  = Throw (TypeError "Do not know how to serialize a BigInt").
Proof. reflexivity. Qed.

Example typeof_null : typeof VNull = "object".
Proof. reflexivity. Qed.

Example hashItem_sample :
  hashItem (mkItem "a" (Some "b") None None VNull None None None None) = "a:b:".
Proof. reflexivity. Qed.

Example suffix_with_description :
  description (applyDescriptionSuffix "recently used"
                 (mkItem "a" (Some "d") None None VNull None None None (Some true)))
  = Some "d (recently used)".
Proof. reflexivity. Qed.

Example suffix_without_description :
  description (applyDescriptionSuffix "recently used" used_item) = Some "recently used".
Proof. reflexivity. Qed.

Example sort_sample :
  label <$> Array_sort (sort DEFAULT_QUICKPICK_OPTIONS)
              [item "b" VNull; used_item; item "c" VNull]
  = ["a"; "b"; "c"].
Proof. reflexivity. Qed.

(** A stream that gives one record and then fails: the record, then the
    error row. *)
Example stream_fails_after_one_record :
  label <$> items (quickPick (this
    (loadItems sample_imports
       (ItemsAsyncIterable
          [mkPull (Fulfilled (mkIteratorResult (Some (inl (item "x" VNull))) false)) false;
           mkPull (Rejected (mkError "Error" "lost")) false])
       None (initial_state sample_imports DEFAULT_QUICKPICK_OPTIONS)).2))
  = ["x"; "[Error loading items]"].
Proof. vm_compute. reflexivity. Qed.

(** An [errorItem] function that returns one object of the caller's at every
    call: the object keeps the message of the first failure. A function
    that makes its record anew shows each failure's message. *)
Example shared_error_object_keeps_first_message :
  let fails e := loadItems sample_imports (ItemsPromise (Rejected (mkError "Error" e))) None in
  let twice o := (fails "first";; fails "second")
                   (initial_state sample_imports (mkOptions None None (Some (ErrFunction o)))) in
  (detail <$> items (quickPick (this
     (twice (λ _, OptObject (OwnItem 1 (item "failed" VNull)))).2)) = [Some "first"])
  ∧ (detail <$> items (quickPick (this
       (twice (λ _, OptObject (NewItem (item "failed" VNull)))).2)) = [Some "second"]).
Proof. vm_compute. done. Qed.

(** One object of the caller's given both as [noItemsFoundItem] and as
    [errorItem]: the message a failure writes into it shows on the
    placeholder of a later empty load. *)
Example shared_option_object_is_written_once :
  let own := OptObject (OwnItem 1 (item "nothing" VNull)) in
  let s := initial_state sample_imports (mkOptions None (Some own) (Some (ErrOption own))) in
  detail <$> items (quickPick (this
    ((loadItems sample_imports (ItemsPromise (Rejected (mkError "Error" "first"))) None;;
      loadItems sample_imports (ItemsArray []) None) s).2))
  = [Some "first"].
Proof. vm_compute. reflexivity. Qed.

(** ** Selecting *)

Lemma labels_of_defined (args : list Item) :
  labels_of (Some <$> args) = Normal (label <$> args).
Proof.
  induction args as [|a args IH]; [done|].
  rewrite !fmap_cons. cbn [labels_of]. by rewrite IH.
Qed.

Lemma defined_arguments (args : list (option Item)) :
  Forall is_Some args → ∃ l, args = Some <$> l.
Proof.
  induction 1 as [|x args [i ->] _ [l ->]].
  - by exists [].
  - by exists (i :: l).
Qed.

Lemma selectItems_run (args : list (option Item)) (ls : list string) (s : State) :
  labels_of args = Normal ls →
  selectItems args s
  = (Normal tt,
     on_this (on_quickPick (set_activeItems (highlighted ls (items (quickPick (this s)))))) s).
Proof.
  intros Hl. unfold selectItems, mbind, M_bind, lift. rewrite Hl. simpl.
  unfold highlighted. destruct s as [[q o f r lp n] d]. simpl.
  case_bool_decide; reflexivity.
Qed.

Lemma selectItems_throws (args : list (option Item)) (e : Error) (s : State) :
  labels_of args = Throw e → selectItems args s = (Throw e, s).
Proof. intros Hl. unfold selectItems, mbind, M_bind, lift. by rewrite Hl. Qed.

Lemma filter_nothing {A} (P : A → Prop) `{!∀ x, Decision (P x)} (l : list A) :
  (∀ x, x ∈ l → ¬ P x) → filter P l = [].
Proof.
  intros Hno. destruct (filter P l) as [|x xs] eqn:E; [done|].
  assert (x ∈ filter P l) as Hx by (rewrite E; left).
  apply list_elem_of_filter in Hx as [HP Hx]. by destruct (Hno x Hx).
Qed.

Lemma highlighted_none (ls : list string) (l : list Item) :
  (∀ i, i ∈ l → label i ∉ ls) → highlighted ls l = [l !! 0].
Proof.
  intros Hno. unfold highlighted. rewrite filter_nothing; [done|].
  intros i Hi Hin. apply (Hno i Hi). by apply elem_of_list_to_set in Hin.
Qed.

Lemma highlighted_some (ls : list string) (l : list Item) (i : Item) :
  i ∈ l → label i ∈ ls →
  highlighted ls l = Some <$> filter (λ i, label i ∈ (list_to_set ls : gset string)) l.
Proof.
  intros Hi Hl. unfold highlighted.
  assert (i ∈ filter (λ i, label i ∈ (list_to_set ls : gset string)) l) as Hin.
  { apply list_elem_of_filter. split; [|done]. by apply elem_of_list_to_set. }
  destruct (filter _ l) as [|x xs] eqn:E; [by apply elem_of_nil in Hin|].
  done.
Qed.

Lemma highlighted_label (l : list Item) (i : Item) :
  i ∈ l → highlighted [label i] l = Some <$> filter (λ x, label x = label i) l.
Proof.
  intros Hi. rewrite (highlighted_some _ _ i); [|done|by left].
  f_equal. apply list_filter_iff. intros x.
  rewrite elem_of_list_to_set, list_elem_of_singleton. done.
Qed.

Lemma highlighted_defined (ls : list string) (l : list Item) :
  l ≠ [] → Forall is_Some (highlighted ls l).
Proof.
  intros Hl. unfold highlighted. case_bool_decide.
  - destruct l as [|x l]; [done|]. by repeat constructor.
  - apply Forall_fmap, Forall_true. intros x. by eexists.
Qed.

(** ** Clearing *)

Lemma clearItems_run (s : State) :
  clearItems s
  = (Normal tt, on_this (λ p, set_isShowingPlaceholder (Some false)
                                 (on_quickPick (set_items []) p)) s).
Proof. done. Qed.

(** C6. [clearItems] is idempotent: for every state, calling it twice in a
    row gives the state that calling it once gives, in which the list is
    empty and the placeholder flag is [false]. *)
Theorem clearItems_idempotent (s : State) :
  (clearItems;; clearItems) s = clearItems s
  ∧ items (quickPick (this (clearItems s).2)) = []
  ∧ isShowingPlaceholder (this (clearItems s).2) = Some false.
Proof. done. Qed.

(** C10. When no label given to [selectItems] is the label of a current
    item, the highlighted list becomes the one-element list of [items[0]],
    read without a check that the list has an element: on an empty list it
    is [[undefined]], not the empty list. *)
Theorem selectItems_fallback_is_unguarded (args : list Item) (s : State) :
  (∀ i a, i ∈ items (quickPick (this s)) → a ∈ args → label i ≠ label a) →
  selectItems (Some <$> args) s
  = (Normal tt,
     on_this (on_quickPick (set_activeItems [items (quickPick (this s)) !! 0])) s)
  ∧ (items (quickPick (this s)) = [] →
     activeItems (quickPick (this (selectItems (Some <$> args) s).2)) = [None]).
Proof.
  intros Hno.
  rewrite (selectItems_run _ _ _ (labels_of_defined args)).
  rewrite (highlighted_none (label <$> args) (items (quickPick (this s)))).
  - split; [done|]. intros Hempty. simpl. by rewrite Hempty.
  - intros i Hi [a [Hl Ha]]%list_elem_of_fmap. by eapply Hno.
Qed.

Lemma selectItems_fallback_is_unguarded_witness :
  activeItems (quickPick (this
    (selectItems (Some <$> [])
       (initial_state sample_imports DEFAULT_QUICKPICK_OPTIONS)).2)) = [None].
Proof.
  apply (selectItems_fallback_is_unguarded []
           (initial_state sample_imports DEFAULT_QUICKPICK_OPTIONS)).
  - intros i a Hi. simpl in Hi. by apply elem_of_nil in Hi.
  - reflexivity.
Defined.

(** ** Sorting *)

Section Sorting.

Context (cmp : Item → Item → Z).

Lemma sort_insert_perm (x : Item) (l : list Item) : sort_insert cmp x l ≡ₚ x :: l.
Proof.
  induction l as [|y l IH]; simpl; [done|].
  destruct (cmp x y <? 0)%Z; [done|].
  rewrite IH. apply Permutation_swap.
Qed.

Lemma foldl_sort_insert_perm (l acc : list Item) :
  foldl (λ sorted x, sort_insert cmp x sorted) acc l ≡ₚ acc ++ l.
Proof.
  revert acc. induction l as [|x l IH]; intros acc; simpl.
  - by rewrite app_nil_r.
  - rewrite IH, sort_insert_perm. simpl. apply Permutation_middle.
Qed.

Lemma Array_sort_perm (l : list Item) : Array_sort cmp l ≡ₚ l.
Proof. apply (foldl_sort_insert_perm l []). Qed.

Lemma Array_sort_length (l : list Item) : length (Array_sort cmp l) = length l.
Proof. by rewrite Array_sort_perm. Qed.

End Sorting.

Section RecentFirst.

Context (o : ExtendedQuickPickOptions).

Lemma sort_recent_left (x y : Item) :
  truthy (recentlyUsed x) = true → sort o x y = (-1)%Z.
Proof. intros H. unfold sort. by rewrite H. Qed.

Lemma sort_recent_right (x y : Item) :
  truthy (recentlyUsed x) = false → truthy (recentlyUsed y) = true → sort o x y = 1%Z.
Proof. intros Hx Hy. unfold sort. by rewrite Hx, Hy. Qed.

Lemma sort_insert_recent (x : Item) (l : list Item) :
  truthy (recentlyUsed x) = true → sort_insert (sort o) x l = x :: l.
Proof. intros H. destruct l as [|y l]; simpl; [done|]. by rewrite sort_recent_left. Qed.

Lemma sort_insert_past_recent (x : Item) (l1 l2 : list Item) :
  truthy (recentlyUsed x) = false →
  Forall (λ i, truthy (recentlyUsed i) = true) l1 →
  sort_insert (sort o) x (l1 ++ l2) = l1 ++ sort_insert (sort o) x l2.
Proof.
  intros Hx. induction 1 as [|y l1 Hy _ IH]; simpl; [done|].
  rewrite sort_recent_right by done. simpl. by rewrite IH.
Qed.

Lemma sort_insert_recent_first (x : Item) (l : list Item) :
  recent_first l → recent_first (sort_insert (sort o) x l).
Proof.
  intros (l1 & l2 & -> & H1 & H2).
  destruct (truthy (recentlyUsed x)) eqn:Hx.
  - rewrite sort_insert_recent by done.
    exists (x :: l1), l2. split; [done|]. split; [by constructor|done].
  - rewrite sort_insert_past_recent by done.
    exists l1, (sort_insert (sort o) x l2). split; [done|]. split; [done|].
    rewrite sort_insert_perm. by constructor.
Qed.

Lemma foldl_sort_insert_recent_first (l acc : list Item) :
  recent_first acc → recent_first (foldl (λ sorted x, sort_insert (sort o) x sorted) acc l).
Proof.
  revert acc. induction l as [|x l IH]; intros acc Hacc; simpl; [done|].
  apply IH. by apply sort_insert_recent_first.
Qed.

Lemma Array_sort_recent_first (l : list Item) : recent_first (Array_sort (sort o) l).
Proof.
  apply foldl_sort_insert_recent_first. exists [], []. by repeat split.
Qed.

End RecentFirst.

Lemma recent_first_lookup (l : list Item) (i j : nat) (a b : Item) :
  recent_first l →
  l !! i = Some a → l !! j = Some b →
  truthy (recentlyUsed a) = true → truthy (recentlyUsed b) = false →
  i < j.
Proof.
  intros (l1 & l2 & -> & H1 & H2) Ha Hb Hra Hrb.
  destruct (decide (i < length l1)) as [Hi|Hi].
  - destruct (decide (j < length l1)) as [Hj|Hj]; [|lia].
    rewrite lookup_app_l in Hb by done.
    rewrite Forall_lookup in H1. specialize (H1 _ _ Hb). simpl in H1. congruence.
  - rewrite lookup_app_r in Ha by lia.
    rewrite Forall_lookup in H2. specialize (H2 _ _ Ha). simpl in H2. congruence.
Qed.

(** ** Loading *)

Section Loading.

Context (imports : Imports).

Lemma appendItems_run (new : list Item) (s : State) (ls : list string) :
  labels_of (activeItems (quickPick (this s))) = Normal ls →
  appendItems imports new s
  = (Normal tt,
     on_this (on_quickPick (λ q,
       set_activeItems (highlighted ls (appended imports s new))
                       (set_items (appended imports s new) q))) s).
Proof.
  intros Hl. unfold appendItems, mbind, M_bind, get. simpl.
  rewrite (selectItems_run _ ls); [|done].
  by destruct s as [[q o f r lp n] d].
Qed.

Lemma appendItems_throws (new : list Item) (s : State) (e : Error) :
  labels_of (activeItems (quickPick (this s))) = Throw e →
  appendItems imports new s
  = (Throw e, on_this (on_quickPick (set_items (appended imports s new))) s).
Proof.
  intros Hl. unfold appendItems, mbind, M_bind, get. simpl.
  rewrite selectItems_throws with (e := e); [|done].
  by destruct s as [[q o f r lp n] d].
Qed.

Lemma checkEmpty_nonempty (pending : option bool) (s : State) :
  items (quickPick (this s)) ≠ [] → checkEmpty imports pending s = (Normal tt, s).
Proof.
  intros Hne. unfold checkEmpty, mbind, M_bind, get. simpl.
  destruct (items (quickPick (this s))); [done|]. done.
Qed.

Lemma checkEmpty_pending (s : State) :
  checkEmpty imports (Some true) s = (Normal tt, s).
Proof.
  unfold checkEmpty, mbind, M_bind, get. simpl. by rewrite andb_false_r.
Qed.

Lemma checkEmpty_placeholder (s : State) :
  items (quickPick (this s)) = [] →
  noItemsFoundItem (options (this s)) = Some (OptObject TheDefaultNoItemsItem) →
  checkEmpty imports (Some false) s
  = (Normal tt,
     on_this (λ p, set_isShowingPlaceholder (Some true)
       (on_quickPick (λ q, set_activeItems [Some (DEFAULT_NO_ITEMS_ITEM imports)]
                             (set_items [DEFAULT_NO_ITEMS_ITEM imports] q)) p)) s).
Proof.
  intros Hempty Hopt. unfold checkEmpty, mbind, M_bind, get, modify. simpl.
  rewrite Hempty. simpl. rewrite Hopt. simpl.
  rewrite (selectItems_run [] []); [|done].
  by destruct s as [[q o f r lp n] d].
Qed.

Lemma checkEmpty_default (s : State) :
  checkEmpty imports None s
  = checkEmpty imports (Some (bool_decide (0 < pendingUpdates (this s)))) s.
Proof. done. Qed.

Lemma loadItems_array_run (l : list Item) (s : State) :
  loadItems imports (ItemsArray l) None s
  = (appendItems imports l;; checkEmpty imports None) (cleared s).
Proof.
  unfold loadItems, cleared, mbind, M_bind, get. simpl.
  by destruct (truthy (isShowingPlaceholder (this s))).
Qed.

Lemma loadItems_promise_run (p : Promise (list Item)) (s : State) :
  loadItems imports (ItemsPromise p) None s
  = addBusyUpdate
      (finally (catch (then_ p (appendItems imports)) (handleError imports))
         (s ← get; checkEmpty imports (Some (bool_decide (1 < pendingUpdates (this s))))))
      None (cleared s).
Proof.
  unfold loadItems, cleared, mbind at 1, M_bind, get. simpl.
  by destruct (truthy (isShowingPlaceholder (this s))).
Qed.

Lemma cleared_activeItems (s : State) :
  activeItems (quickPick (this (cleared s))) = activeItems (quickPick (this s)).
Proof. unfold cleared. destruct (truthy _); reflexivity. Qed.

Lemma cleared_options (s : State) : options (this (cleared s)) = options (this s).
Proof. unfold cleared. destruct (truthy _); reflexivity. Qed.

Lemma cleared_pendingUpdates (s : State) :
  pendingUpdates (this (cleared s)) = pendingUpdates (this s).
Proof. unfold cleared. destruct (truthy _); reflexivity. Qed.

Lemma cleared_DEFAULT_ERROR_ITEM (s : State) :
  DEFAULT_ERROR_ITEM (cleared s) = DEFAULT_ERROR_ITEM s.
Proof. unfold cleared. destruct (truthy _); reflexivity. Qed.

Lemma cleared_flag (s : State) : truthy (isShowingPlaceholder (this (cleared s))) = false.
Proof.
  unfold cleared.
  destruct (truthy (isShowingPlaceholder (this s))) eqn:E; [reflexivity | exact E].
Qed.

Lemma cleared_items (s : State) :
  items (quickPick (this s)) = [] ∨ truthy (isShowingPlaceholder (this s)) = true →
  items (quickPick (this (cleared s))) = [].
Proof.
  unfold cleared. intros [H|H].
  - by destruct (truthy _).
  - by rewrite H.
Qed.

Lemma applyDescriptionSuffix_not_recent (suffix : string) (i : Item) :
  truthy (recentlyUsed i) = false → applyDescriptionSuffix suffix i = i.
Proof. intros H. unfold applyDescriptionSuffix. by rewrite H. Qed.

Lemma with_default_detail_recentlyUsed (msg : string) (i : Item) :
  recentlyUsed (with_default_detail msg i) = recentlyUsed i.
Proof. unfold with_default_detail. by destruct (detail i). Qed.

Lemma addErrorItem_default (e : Error) (s : State) (ls : list string) :
  errorItem (options (this s)) = Some (ErrOption (OptObject TheDefaultErrorItem)) →
  truthy (recentlyUsed (DEFAULT_ERROR_ITEM s)) = false →
  labels_of (activeItems (quickPick (this s))) = Normal ls →
  let shown := with_default_detail (message e) (DEFAULT_ERROR_ITEM s) in
  let l := Array_sort (sort (options (this s))) (items (quickPick (this s)) ++ [shown]) in
  addErrorItem imports e s
  = (Normal tt,
     mkState
       (set_isShowingPlaceholder (Some true)
          (on_quickPick (λ q, set_activeItems (highlighted ls l) (set_items l q)) (this s)))
       shown).
Proof.
  intros Hopt Hplain Hl shown l.
  unfold addErrorItem, mbind, M_bind, get, modify. rewrite Hopt. simpl.
  rewrite (appendItems_run _ _ ls) by (simpl; done).
  unfold appended. simpl. fold shown.
  rewrite applyDescriptionSuffix_not_recent
    by (unfold shown; by rewrite with_default_detail_recentlyUsed).
  by destruct s as [[q o f r lp n] d].
Qed.

(** A rejected batch under the default [errorItem]: [loadItems] resolves,
    and one row joins the list, the module-level error item with the
    rejection's message as its detail if it had none. The row is written
    back to the module-level item. *)
Lemma loadItems_rejected_adds_error_row (e : Error) (s : State) :
  errorItem (options (this s)) = Some (ErrOption (OptObject TheDefaultErrorItem)) →
  truthy (recentlyUsed (DEFAULT_ERROR_ITEM s)) = false →
  Forall is_Some (activeItems (quickPick (this s))) →
  let shown := with_default_detail (message e) (DEFAULT_ERROR_ITEM s) in
  ∃ s', loadItems imports (ItemsPromise (Rejected e)) None s = (Normal tt, s')
    ∧ items (quickPick (this s')) ≡ₚ items (quickPick (this (cleared s))) ++ [shown]
    ∧ DEFAULT_ERROR_ITEM s' = shown
    ∧ isShowingPlaceholder (this s') = Some true
    ∧ pendingUpdates (this s') = pendingUpdates (this s)
    ∧ options (this s') = options (this s)
    ∧ Forall is_Some (activeItems (quickPick (this s'))).
Proof.
  intros Hopt Hplain [l Hl]%defined_arguments shown.
  rewrite loadItems_promise_run.
  unfold addBusyUpdate, finally, catch, then_, throw, handleError, mbind, M_bind, modify, get.
  simpl.
  erewrite addErrorItem_default with (ls := label <$> l); cycle 1.
  { simpl. by rewrite cleared_options. }
  { simpl. by rewrite cleared_DEFAULT_ERROR_ITEM. }
  { simpl. rewrite cleared_activeItems, Hl. apply labels_of_defined. }
  simpl. rewrite cleared_DEFAULT_ERROR_ITEM. fold shown.
  rewrite checkEmpty_nonempty.
  2:{ simpl. intros E. apply (f_equal length) in E.
      rewrite Array_sort_length, length_app in E. simpl in E. lia. }
  eexists. split; [done|]. simpl. repeat split.
  - apply Array_sort_perm.
  - by rewrite cleared_pendingUpdates.
  - by rewrite cleared_options.
  - apply highlighted_defined. intros E. apply (f_equal length) in E.
    rewrite Array_sort_length, length_app in E. simpl in E. lia.
Qed.

(** While the module-level error item is as written, the row carries the
    rejection's message. *)
Lemma loadItems_rejected_shows_message (e : Error) (s : State) :
  errorItem (options (this s)) = Some (ErrOption (OptObject TheDefaultErrorItem)) →
  DEFAULT_ERROR_ITEM s = DEFAULT_ERROR_ITEM_literal imports →
  Forall is_Some (activeItems (quickPick (this s))) →
  ∃ s' shown, loadItems imports (ItemsPromise (Rejected e)) None s = (Normal tt, s')
    ∧ items (quickPick (this s')) ≡ₚ items (quickPick (this (cleared s))) ++ [shown]
    ∧ detail shown = Some (message e).
Proof.
  intros Hopt Hdefault Hactive.
  destruct (loadItems_rejected_adds_error_row e s Hopt) as (s' & Hrun & Hitems & _);
    [by rewrite Hdefault|done|].
  exists s', (with_default_detail (message e) (DEFAULT_ERROR_ITEM s)).
  split; [done|]. split; [done|]. by rewrite Hdefault.
Qed.

(** Once a message has been written into the module-level error item, the
    row carries that message, whatever the rejection at hand says. *)
Lemma loadItems_rejected_keeps_written_message (e : Error) (written : string) (s : State) :
  errorItem (options (this s)) = Some (ErrOption (OptObject TheDefaultErrorItem)) →
  DEFAULT_ERROR_ITEM s = set_detail (Some written) (DEFAULT_ERROR_ITEM_literal imports) →
  Forall is_Some (activeItems (quickPick (this s))) →
  ∃ s' shown, loadItems imports (ItemsPromise (Rejected e)) None s = (Normal tt, s')
    ∧ items (quickPick (this s')) ≡ₚ items (quickPick (this (cleared s))) ++ [shown]
    ∧ detail shown = Some written.
Proof.
  intros Hopt Hdefault Hactive.
  destruct (loadItems_rejected_adds_error_row e s Hopt) as (s' & Hrun & Hitems & _);
    [by rewrite Hdefault|done|].
  exists s', (with_default_detail (message e) (DEFAULT_ERROR_ITEM s)).
  split; [done|]. split; [done|]. by rewrite Hdefault.
Qed.

End Loading.

(** C1. Two batches rejected one after the other under the default
    [errorItem], the module-level error item being as written before the
    first: both loads resolve and the list ends as one error row, but the
    row carries the message of the first rejection, not of the second. The
    first load wrote its message into the module-level [DEFAULT_ERROR_ITEM],
    where the second finds a detail already set. *)
Theorem second_rejection_shows_first_message (imports : Imports) (e1 e2 : Error)
    (s : State) :
  errorItem (options (this s)) = Some (ErrOption (OptObject TheDefaultErrorItem)) →
  DEFAULT_ERROR_ITEM s = DEFAULT_ERROR_ITEM_literal imports →
  Forall is_Some (activeItems (quickPick (this s))) →
  ∃ s1 s2 shown,
    loadItems imports (ItemsPromise (Rejected e1)) None s = (Normal tt, s1)
    ∧ loadItems imports (ItemsPromise (Rejected e2)) None s1 = (Normal tt, s2)
    ∧ items (quickPick (this s2)) = [shown]
    ∧ detail shown = Some (message e1).
Proof.
  intros Hopt Hdefault Hactive.
  destruct (loadItems_rejected_adds_error_row imports e1 s Hopt)
    as (s1 & Hrun1 & _ & Hwritten & Hflag & _ & Hopt1 & Hactive1);
    [by rewrite Hdefault|done|].
  rewrite Hdefault in Hwritten. change (DEFAULT_ERROR_ITEM s1
    = set_detail (Some (message e1)) (DEFAULT_ERROR_ITEM_literal imports)) in Hwritten.
  destruct (loadItems_rejected_adds_error_row imports e2 s1)
    as (s2 & Hrun2 & Hitems & _); [congruence|by rewrite Hwritten|done|].
  rewrite cleared_items in Hitems by (right; by rewrite Hflag).
  apply Permutation_singleton_r in Hitems.
  exists s1, s2, (with_default_detail (message e2) (DEFAULT_ERROR_ITEM s1)).
  split; [done|]. split; [done|]. split; [done|]. by rewrite Hwritten.
Qed.

Lemma second_rejection_shows_first_message_witness :
  ∃ s1 s2 shown,
    loadItems sample_imports (ItemsPromise (Rejected (mkError "Error" "first"))) None
              (initial_state sample_imports DEFAULT_QUICKPICK_OPTIONS) = (Normal tt, s1)
    ∧ loadItems sample_imports (ItemsPromise (Rejected (mkError "Error" "second"))) None s1
      = (Normal tt, s2)
    ∧ items (quickPick (this s2)) = [shown]
    ∧ detail shown = Some "first".
Proof.
  apply (second_rejection_shows_first_message sample_imports
           (mkError "Error" "first") (mkError "Error" "second")
           (initial_state sample_imports DEFAULT_QUICKPICK_OPTIONS)).
  - reflexivity.
  - reflexivity.
  - constructor.
Defined.

(** C3. The empty array, loaded under the default [noItemsFoundItem] into a
    prompter whose list is empty (or shows a placeholder) and that has no
    update pending: [loadItems] resolves, the list is the one placeholder
    record, its data is the BACK signal, it is highlighted, and accepting it
    resolves the prompt with BACK. *)
Theorem loadItems_empty_array_shows_placeholder (imports : Imports) (s : State) :
  noItemsFoundItem (options (this s)) = Some (OptObject TheDefaultNoItemsItem) →
  items (quickPick (this s)) = [] ∨ truthy (isShowingPlaceholder (this s)) = true →
  pendingUpdates (this s) = 0 →
  Forall is_Some (activeItems (quickPick (this s))) →
  instanceof_Function (WIZARD_BACK imports) = false →
  let placeholder := DEFAULT_NO_ITEMS_ITEM imports in
  ∃ s', loadItems imports (ItemsArray []) None s = (Normal tt, s')
    ∧ items (quickPick (this s')) = [placeholder]
    ∧ data placeholder = WIZARD_BACK imports
    ∧ isShowingPlaceholder (this s') = Some true
    ∧ activeItems (quickPick (this s')) = [Some placeholder]
    ∧ ∀ p : Prompt,
        selectedItems (picker p) = [placeholder] → choices p = None →
        choices (acceptItems p) = Some [placeholder]
        ∧ prompt_result [placeholder] = Fulfilled (WIZARD_BACK imports).
Proof.
  intros Hopt Hempty Hpending [l Hl]%defined_arguments Hback placeholder.
  rewrite loadItems_array_run.
  pose proof (cleared_items s Hempty) as Hitems.
  unfold mbind at 1. unfold M_bind.
  rewrite (appendItems_run imports [] (cleared s) (label <$> l))
    by (rewrite cleared_activeItems, Hl; apply labels_of_defined).
  unfold appended. rewrite Hitems. simpl.
  rewrite checkEmpty_default. simpl. rewrite cleared_pendingUpdates, Hpending. simpl.
  rewrite checkEmpty_placeholder; [| simpl; done | simpl; by rewrite cleared_options].
  eexists. split; [done|]. simpl.
  split; [done|]. split; [done|]. split; [done|]. split; [done|].
  intros p Hselected Hwaiting. split.
  - unfold acceptItems. rewrite Hselected. simpl.
    unfold resolve. simpl. by rewrite Hwaiting.
  - unfold prompt_result, placeholder. simpl.
    destruct (WIZARD_BACK imports); done.
Qed.

Lemma loadItems_empty_array_shows_placeholder_witness :
  ∃ s', loadItems sample_imports (ItemsArray []) None
          (initial_state sample_imports DEFAULT_QUICKPICK_OPTIONS) = (Normal tt, s')
    ∧ items (quickPick (this s')) = [DEFAULT_NO_ITEMS_ITEM sample_imports].
Proof.
  destruct (loadItems_empty_array_shows_placeholder sample_imports
              (initial_state sample_imports DEFAULT_QUICKPICK_OPTIONS))
    as (s' & Hrun & Hitems & _).
  - reflexivity.
  - left. reflexivity.
  - reflexivity.
  - constructor.
  - reflexivity.
  - exists s'. split; assumption.
Defined.

(** C4, as amended. A non-empty array of N records, loaded into a prompter
    whose list is empty: [loadItems] resolves, the list is a permutation of
    the N records (those flagged [recentlyUsed] with the suffix on their
    description), no placeholder is flagged, and every record flagged
    [recentlyUsed] stands before every record that is not. *)
Theorem loadItems_array_recent_first (imports : Imports) (new : list Item) (s : State) :
  new ≠ [] →
  items (quickPick (this s)) = [] →
  Forall is_Some (activeItems (quickPick (this s))) →
  ∃ s', loadItems imports (ItemsArray new) None s = (Normal tt, s')
    ∧ items (quickPick (this s'))
      ≡ₚ (applyDescriptionSuffix (localizedText_recentlyUsed imports) <$> new)
    ∧ length (items (quickPick (this s'))) = length new
    ∧ truthy (isShowingPlaceholder (this s')) = false
    ∧ ∀ i j a b,
        items (quickPick (this s')) !! i = Some a →
        items (quickPick (this s')) !! j = Some b →
        truthy (recentlyUsed a) = true → truthy (recentlyUsed b) = false →
        i < j.
Proof.
  intros Hnew Hempty [l Hl]%defined_arguments.
  rewrite loadItems_array_run.
  pose proof (cleared_items s (or_introl Hempty)) as Hitems.
  unfold mbind at 1. unfold M_bind.
  rewrite (appendItems_run imports new (cleared s) (label <$> l))
    by (rewrite cleared_activeItems, Hl; apply labels_of_defined).
  set (sorted := appended imports (cleared s) new).
  assert (sorted ≡ₚ applyDescriptionSuffix (localizedText_recentlyUsed imports) <$> new)
    as Hperm.
  { unfold sorted, appended. rewrite Hitems. simpl. apply Array_sort_perm. }
  assert (length sorted = length new) as Hlen.
  { by rewrite Hperm, length_fmap. }
  rewrite checkEmpty_nonempty.
  2:{ simpl. intros E. rewrite E in Hlen. destruct new; [done|]. done. }
  eexists. split; [done|]. simpl. repeat split; try done.
  - apply cleared_flag.
  - intros i j a b. apply recent_first_lookup. apply Array_sort_recent_first.
Qed.

Lemma loadItems_array_recent_first_witness :
  ∃ s', loadItems sample_imports (ItemsArray [item "b" (VNum 1); used_item]) None
          (initial_state sample_imports DEFAULT_QUICKPICK_OPTIONS) = (Normal tt, s')
    ∧ length (items (quickPick (this s'))) = 2.
Proof.
  destruct (loadItems_array_recent_first sample_imports [item "b" (VNum 1); used_item]
              (initial_state sample_imports DEFAULT_QUICKPICK_OPTIONS))
    as (s' & Hrun & _ & Hlen & _).
  - discriminate.
  - reflexivity.
  - constructor.
  - exists s'. split; assumption.
Defined.

(** The array of no records, loaded into a new prompter under the default
    options: the list does not hold exactly the records supplied (none), it
    holds the placeholder, and the placeholder flag is set. *)
Lemma empty_array_is_not_left_empty :
  let s' := (loadItems sample_imports (ItemsArray []) None
               (initial_state sample_imports DEFAULT_QUICKPICK_OPTIONS)).2 in
  items (quickPick (this s')) = [DEFAULT_NO_ITEMS_ITEM sample_imports]
  ∧ length (items (quickPick (this s'))) ≠ length (@nil Item)
  ∧ isShowingPlaceholder (this s') = Some true.
Proof. vm_compute. done. Qed.

(** The condition on the highlighted list cannot be dropped: on a picker
    that keeps what is assigned to it, an [undefined] highlight (left by
    [selectItems] on an empty list) makes the next append read the label of
    [undefined]. *)
Lemma undefined_highlight_makes_append_throw :
  let s := (selectItems [] (initial_state sample_imports DEFAULT_QUICKPICK_OPTIONS)).2 in
  activeItems (quickPick (this s)) = [None]
  ∧ (loadItems sample_imports (ItemsArray [item "x" VNull]) None s).1
    = Throw (TypeError "Cannot read properties of undefined (reading 'label')").
Proof. vm_compute. done. Qed.

(** ** Recency matching *)

Lemma find_completion_first {A} (p : A → completion bool) (P : A → Prop) (l : list A) :
  (∀ x, x ∈ l → ∃ b : bool, p x = Normal b ∧ (b = true ↔ P x)) →
  ∃ r, find_completion p l = Normal r
    ∧ match r with
      | Some x => first_such P l x
      | None => ∀ x, x ∈ l → ¬ P x
      end.
Proof.
  induction l as [|x l IH]; intros Hp; simpl.
  - exists None. split; [done|]. intros x Hx. by apply elem_of_nil in Hx.
  - destruct (Hp x) as (b & -> & Hb); [left|].
    destruct b.
    + exists (Some x). split; [done|]. exists 0. split; [done|].
      split; [by apply Hb|]. intros j y Hj. lia.
    + destruct IH as (r & -> & Hr).
      { intros y Hy. apply Hp. by right. }
      assert (¬ P x) as Hx by (intros HP; apply Hb in HP; done).
      exists r. split; [done|]. destruct r as [y|].
      * destruct Hr as (k & Hk & Hy & Hbefore). exists (S k). split; [done|].
        split; [done|]. intros [|j] z Hj Hz; simpl in Hz.
        -- by inversion Hz; subst.
        -- apply (Hbefore j z); [lia|done].
      * intros y [->|Hy]%elem_of_cons; [done|]. by apply Hr.
Qed.

Lemma first_such_elem_of {A} (P : A → Prop) (l : list A) (x : A) :
  first_such P l x → x ∈ l.
Proof. intros (k & Hk & _). by eapply list_elem_of_lookup_2. Qed.

Lemma recovers_decides (recent : JsValue) (stringified : option string) (i : Item) :
  (typeof (data i) = "object" → ∃ str, JSON_stringify (data i) = Normal str) →
  ∃ b : bool, recovers recent stringified i = Normal b
    ∧ (b = true ↔ recency_match recent stringified i).
Proof.
  intros Hser. unfold recovers, recency_match.
  case_bool_decide as Hobj.
  - destruct (Hser Hobj) as [str Hstr]. rewrite Hstr.
    eexists. split; [done|]. rewrite bool_decide_eq_true. split.
    + intros ->. by left.
    + intros [[_ [= ->]]|[? _]]; done.
  - case_bool_decide as Hfun.
    + exists false. split; [done|]. split; [done|].
      intros [[? _]|(_ & ? & _)]; done.
    + eexists. split; [done|]. split.
      * intros ?. by right.
      * intros [[? _]|(_ & _ & ?)]; done.
Qed.

(** A record whose value is a thunk does not meet the criterion. *)
Lemma thunk_never_matches (recent : JsValue) (stringified : option string) (i : Item) :
  instanceof_Function (data i) = true → ¬ recency_match recent stringified i.
Proof.
  intros Hfun [[Hobj _]|(_ & Hnot & _)]; destruct (data i); done.
Qed.

Lemma not_undefined (v : JsValue) : v ≠ VUndefined → strict_equal v VUndefined = false.
Proof. by destruct v. Qed.

Lemma filter_label_unique (l : list Item) (r : Item) :
  NoDup (label <$> l) → r ∈ l → filter (λ x, label x = label r) l = [r].
Proof.
  induction l as [|y l IH]; intros Hnd Hr; [by apply elem_of_nil in Hr|].
  rewrite fmap_cons in Hnd. apply NoDup_cons in Hnd as [Hy Hnd].
  apply elem_of_cons in Hr as [->|Hr].
  - rewrite filter_cons_True by done. f_equal.
    apply filter_nothing. intros z Hz Hlz.
    destruct Hy. rewrite <- Hlz. apply list_elem_of_fmap. by exists z.
  - rewrite filter_cons_False; [by apply IH|].
    intros Hl. destruct Hy. rewrite Hl. apply list_elem_of_fmap. by exists r.
Qed.

Lemma recoverItemFromData_first (recent : JsValue) (stringified : option string)
    (l : list Item) :
  JSON_stringify recent = Normal stringified →
  (∀ i, i ∈ l → typeof (data i) = "object" → ∃ str, JSON_stringify (data i) = Normal str) →
  ∃ found, recoverItemFromData recent l = Normal found
    ∧ match found with
      | Some r => first_such (recency_match recent stringified) l r
      | None => ∀ x, x ∈ l → ¬ recency_match recent stringified x
      end.
Proof.
  intros Hs Hser. unfold recoverItemFromData. rewrite Hs.
  apply find_completion_first. intros i Hi. apply recovers_decides. by apply Hser.
Qed.

Lemma isRecentItem_recovered (s : State) (found : option Item) (i : Item) :
  _recentItem (this s) ≠ VUndefined →
  isDataQuickPickItem (_recentItem (this s)) = Normal false →
  recoverItemFromData (_recentItem (this s)) (items (quickPick (this s))) = Normal found →
  isRecentItem s i = Normal (bool_decide (Some (label i) = label <$> found)).
Proof.
  intros Hdef Hitem Hfound. unfold isRecentItem.
  by rewrite not_undefined, Hitem, Hfound.
Qed.

(** C5, as amended. A recent value that is set, is no option record (and
    not [null]) and can be serialised, as can the object values of the list:
    setting it does not throw. The record recovered is the first one that
    meets the criterion (object value with the same serialisation, or a
    non-thunk value identical to the recent one), never a thunk; the
    records highlighted are those that bear its label, which is that record
    alone when labels are distinct. With no record meeting the criterion,
    an empty highlight becomes [items[0]] and any other highlight stays. *)
Theorem recent_value_highlights_by_label (recent : JsValue) (stringified : option string)
    (s : State) :
  recent ≠ VUndefined →
  isDataQuickPickItem recent = Normal false →
  JSON_stringify recent = Normal stringified →
  (∀ i, i ∈ items (quickPick (this s)) → typeof (data i) = "object" →
        ∃ str, JSON_stringify (data i) = Normal str) →
  let l := items (quickPick (this s)) in
  ∃ found s',
    recoverItemFromData recent l = Normal found
    ∧ set_recentItem recent s = (Normal tt, s')
    ∧ items (quickPick (this s')) = l
    ∧ match found with
      | Some r =>
          first_such (recency_match recent stringified) l r
          ∧ instanceof_Function (data r) = false
          ∧ activeItems (quickPick (this s'))
            = Some <$> filter (λ x, label x = label r) l
          ∧ (NoDup (label <$> l) → activeItems (quickPick (this s')) = [Some r])
          ∧ _recentItem (this s') = VUndefined
      | None =>
          (∀ x, x ∈ l → ¬ recency_match recent stringified x)
          ∧ (activeItems (quickPick (this s)) = [] →
             activeItems (quickPick (this s')) = [l !! 0])
          ∧ (activeItems (quickPick (this s)) ≠ [] →
             activeItems (quickPick (this s')) = activeItems (quickPick (this s)))
      end.
Proof.
  intros Hdef Hitem Hs Hser l.
  destruct (recoverItemFromData_first recent stringified l Hs Hser) as (found & Hfound & Hspec).
  exists found.
  set (s1 := on_this (set_recentItem_field recent) s).
  assert (∀ i, isRecentItem s1 i = Normal (bool_decide (Some (label i) = label <$> found)))
    as Hrecent.
  { intros i. apply isRecentItem_recovered; subst s1; simpl; done. }
  destruct (find_completion_first (isRecentItem s1)
              (λ i, Some (label i) = label <$> found) l) as (hit & Hhit & Hhitspec).
  { intros i _. eexists. split; [apply Hrecent|]. by rewrite bool_decide_eq_true. }
  unfold set_recentItem, mbind at 1, M_bind, modify. fold s1.
  unfold matchRecentItem, mbind at 1, M_bind, get.
  unfold mbind at 1, M_bind, lift.
  change (items (quickPick (this s1))) with l. rewrite Hhit.
  destruct found as [r|].
  - pose proof (first_such_elem_of _ _ _ Hspec) as Hr.
    destruct hit as [i|].
    2:{ destruct (Hhitspec r Hr). done. }
    destruct Hhitspec as (k & Hk & [= Hlabel] & _).
    assert (i ∈ l) as Hi by (by eapply list_elem_of_lookup_2).
    unfold mbind, M_bind, modify.
    rewrite (selectItems_run [Some i] [label i]) by done.
    eexists. split; [done|]. split; [done|]. split; [done|].
    change (items (quickPick (this s1))) with l.
    rewrite highlighted_label by done. rewrite Hlabel.
    split; [done|]. split.
    { destruct (instanceof_Function (data r)) eqn:Hfun; [|done].
      destruct Hspec as (_ & _ & Hmatch & _).
      by destruct (thunk_never_matches recent stringified r Hfun). }
    split; [done|]. split; [|done].
    simpl. intros Hnd. by rewrite filter_label_unique.
  - destruct hit as [i|].
    { destruct Hhitspec as (_ & _ & ? & _). done. }
    change (activeItems (quickPick (this s1))) with (activeItems (quickPick (this s))).
    destruct (activeItems (quickPick (this s))) as [|a act] eqn:Hact; simpl.
    + rewrite (selectItems_run [] []) by done.
      eexists. split; [done|]. split; [done|]. split; [done|].
      split; [done|]. split; [|done]. intros _. simpl.
      change (items (quickPick (this s))) with l.
      apply highlighted_none. intros x _ Hx. by apply elem_of_nil in Hx.
    + eexists. split; [done|]. split; [done|]. split; [done|].
      split; [done|]. split; [done|]. intros _. simpl. done.
Qed.

Lemma recent_value_highlights_by_label_witness :
  ∃ s', set_recentItem (VNum 2) (showing [item "x" (VNum 1); item "y" (VNum 2)])
        = (Normal tt, s')
    ∧ activeItems (quickPick (this s')) = [Some (item "y" (VNum 2))].
Proof.
  destruct (recent_value_highlights_by_label (VNum 2) (Some "2")
              (showing [item "x" (VNum 1); item "y" (VNum 2)]))
    as (found & s' & Hfound & Hrun & _ & Hspec).
  - discriminate.
  - reflexivity.
  - reflexivity.
  - intros i Hi Hobj. exfalso. simpl in Hi.
    apply elem_of_cons in Hi as [->|Hi]; [discriminate|].
    apply elem_of_cons in Hi as [->|Hi]; [discriminate|].
    by apply elem_of_nil in Hi.
  - exists s'. split; [assumption|].
    vm_compute in Hfound. injection Hfound as <-.
    destruct Hspec as (_ & _ & Hactive & _). rewrite Hactive. reflexivity.
Defined.

(** Two records with one label, the second of which has the recent value:
    the second is recovered, and both are highlighted. *)
Lemma duplicate_labels_highlighted_together :
  let l := [item "x" (VNum 1); item "x" (VNum 2)] in
  recoverItemFromData (VNum 2) l = Normal (Some (item "x" (VNum 2)))
  ∧ (set_recentItem (VNum 2) (showing l)).1 = Normal tt
  ∧ activeItems (quickPick (this (set_recentItem (VNum 2) (showing l)).2))
    = [Some (item "x" (VNum 1)); Some (item "x" (VNum 2))]
  ∧ activeItems (quickPick (this (set_recentItem (VNum 2) (showing l)).2))
    ≠ [Some (item "x" (VNum 2))].
Proof. vm_compute. done. Qed.

(** [null] as the recent value of a list that is not empty: the type guard
    reads a property of [null], and setting the recent value throws. *)
Lemma null_recent_value_throws :
  (set_recentItem VNull (showing [item "x" (VNum 1)])).1
  = Throw (TypeError "Cannot read properties of null (reading 'label')").
Proof. vm_compute. done. Qed.

(** ** The step estimator *)

(** C7, as amended. A thunk-valued record that is not marked invalid and has
    no estimate cached: with [skipEstimate] left unset the thunk is not
    called, no estimator call is made, and 0 is returned and cached; with
    [skipEstimate] set to [true] the estimate is 0 and nothing at all
    happens (no call, nothing cached); with [skipEstimate] set to [false],
    and only then, the thunk is called, its result (passed through the
    transform) is given to the estimator, and the estimate is returned and
    cached. *)
Theorem estimate_thunk_only_when_asked (estimator : JsValue → Z)
    (transform : option (JsValue → JsValue)) (i : Item) (e : Estimation)
    (addr : nat) (returns : Promise JsValue) :
  data i = VFun addr returns →
  truthy (invalidSelection i) = false →
  estimates e !! hashItem i = None →
  (skipEstimate i = None →
   estimate estimator transform i e
   = (Normal 0%Z, mkEstimation (<[hashItem i := 0%Z]> (estimates e)) (calls e)))
  ∧ (skipEstimate i = Some false → ∀ d, returns = Fulfilled d →
     let result := transformed transform d in
     estimate estimator transform i e
     = (Normal (estimator result),
        mkEstimation (<[hashItem i := estimator result]> (estimates e))
                     (calls e ++ [ThunkCalled addr; EstimatorCalled result])))
  ∧ (skipEstimate i = Some true →
     estimate estimator transform i e = (Normal 0%Z, e))
  ∧ (ThunkCalled addr ∈ calls (estimate estimator transform i e).2 →
     ThunkCalled addr ∈ calls e ∨ skipEstimate i = Some false).
Proof.
  intros Hdata Hvalid Hmiss. split; [|split; [|split]].
  - intros Hskip. unfold estimate. rewrite Hskip, Hvalid. simpl.
    unfold mbind, M_bind, get. rewrite Hmiss, Hdata. reflexivity.
  - intros Hskip d -> result. unfold estimate. rewrite Hskip, Hvalid. simpl.
    unfold mbind, M_bind, get. rewrite Hmiss, Hdata. simpl.
    unfold record_call, cache, modify, mret, M_ret. simpl.
    by rewrite <- app_assoc.
  - intros Hskip. unfold estimate. by rewrite Hskip.
  - destruct (skipEstimate i) as [[|]|] eqn:Hskip; [|by right|].
    + unfold estimate. rewrite Hskip. simpl. by left.
    + unfold estimate. rewrite Hskip, Hvalid. simpl.
      unfold mbind, M_bind, get. rewrite Hmiss, Hdata. simpl. by left.
Qed.

Lemma estimate_thunk_only_when_asked_witness :
  estimate (λ _, 3%Z) None next_item (mkEstimation ∅ [])
  = (Normal 3%Z,
     mkEstimation (<["next::" := 3%Z]> ∅) [ThunkCalled 5; EstimatorCalled (VStr "r")]).
Proof.
  apply (estimate_thunk_only_when_asked (λ _, 3%Z) None next_item
           (mkEstimation ∅ []) 5 (Fulfilled (VStr "r"))).
  - reflexivity.
  - reflexivity.
  - reflexivity.
  - reflexivity.
  - reflexivity.
Defined.

(** A thunk-valued record, valid, with [skipEstimate] left unset: the
    estimate is 0, and neither the thunk nor the estimator is called. *)
Lemma unset_skipEstimate_skips_thunk :
  skipEstimate (item "next" (VFun 5 (Fulfilled (VStr "r")))) = None
  ∧ estimate (λ _, 3%Z) None (item "next" (VFun 5 (Fulfilled (VStr "r"))))
             (mkEstimation ∅ [])
    = (Normal 0%Z, mkEstimation (<["next::" := 0%Z]> ∅) []).
Proof. split; reflexivity. Qed.

(** ** Accepting *)

(** C8. Acceptance with a selection that is not empty, while the prompt
    waits: the [onClick] of every selected record fires, invalid or not,
    before anything is resolved; the prompt is resolved with the selection
    exactly when no selected record is invalid; with an invalid record
    selected nothing but the fired callbacks changes, and the prompt still
    waits. *)
Theorem acceptItems_clicks_then_resolves (p : Prompt) :
  selectedItems (picker p) ≠ [] →
  choices p = None →
  let selected := selectedItems (picker p) in
  let clicks := omap (λ i, Clicked <$> onClick i) selected in
  let invalid := existsb (λ i, truthy (invalidSelection i)) selected in
  (∀ i c, i ∈ selected → onClick i = Some c → Clicked c ∈ events (acceptItems p))
  ∧ events (acceptItems p)
    = events p ++ clicks ++ (if invalid then [] else [Resolved selected])
  ∧ (choices (acceptItems p) = Some selected
     ↔ ∀ i, i ∈ selected → truthy (invalidSelection i) = false)
  ∧ (invalid = true →
     acceptItems p = mkPrompt (picker p) None (events p ++ clicks)).
Proof.
  intros Hne Hpending selected clicks invalid.
  assert (acceptItems p
          = if invalid then mkPrompt (picker p) None (events p ++ clicks)
            else mkPrompt (picker p) (Some selected)
                          ((events p ++ clicks) ++ [Resolved selected])) as Hrun.
  { unfold acceptItems. fold selected.
    destruct selected as [|x xs] eqn:E; [done|]. simpl bool_decide. cbv iota.
    fold invalid. unfold fire_onClick, resolve. simpl. rewrite Hpending.
    by destruct invalid. }
  assert (invalid = false ↔ ∀ i, i ∈ selected → truthy (invalidSelection i) = false)
    as Hinvalid.
  { unfold invalid. rewrite <- not_true_iff_false, existsb_exists. split.
    - intros Hno i Hi. destruct (truthy (invalidSelection i)) eqn:Ei; [|done].
      destruct Hno. exists i. split; [by apply list_elem_of_In|done].
    - intros Hall (i & Hi%list_elem_of_In & Ei). rewrite (Hall i Hi) in Ei. done. }
  split; [|split; [|split]].
  - intros i c Hi Hc.
    assert (Clicked c ∈ clicks) as Hin.
    { apply list_elem_of_omap. exists i. split; [done|]. by rewrite Hc. }
    rewrite Hrun. destruct invalid; simpl; rewrite ?elem_of_app; auto.
  - rewrite Hrun. destruct invalid; simpl; [by rewrite app_nil_r|by rewrite app_assoc].
  - rewrite <- Hinvalid, Hrun. destruct invalid; simpl; split; done.
  - intros Hinv. by rewrite Hrun, Hinv.
Qed.

Lemma acceptItems_clicks_then_resolves_witness :
  acceptItems (mkPrompt (mkPicker [info_item] [] [info_item] "" None None) None [])
  = mkPrompt (mkPicker [info_item] [] [info_item] "" None None) None [Clicked 7].
Proof.
  apply (acceptItems_clicks_then_resolves
           (mkPrompt (mkPicker [info_item] [] [info_item] "" None None) None [])).
  - discriminate.
  - reflexivity.
  - reflexivity.
Defined.

(** ** Filter-box input *)






Lemma filter_box_eta (b : FilterBox) :
  b = filter_box b (items (picker_of b)) (value (picker_of b))
                 (pendingUpdates (this (base b))) (timer b) (pendingValidation b)
                 (pendingValue b) (validations b).
Proof. by destruct b as [[[[its act sel v stp tot] o fl ri lp n] d] st tm pv pval vs]. Qed.

Lemma others_synthetic (b : FilterBox) (text detail : string) (invalid : bool)
    (l : list Item) :
  others (synthetic b text detail invalid :: l) = others l.
Proof. reflexivity. Qed.

Lemma others_others (l : list Item) : others (others l) = others l.
Proof.
  unfold others. induction l as [|x l IH]; [done|].
  rewrite filter_cons. case_decide as Hx.
  - rewrite filter_cons_True by done. by rewrite IH.
  - done.
Qed.

Section Events.

Context (b : FilterBox) (f : string → Validation).
Context (Hf : validator (settings b) = Some f).

Lemma update_requests (t : string) (r : option string) (l : list Item) (text : string)
    (n : nat) (tm : option (nat * list Item)) (pendingFor : option string)
    (vs : list ValidationPromise) :
  t ≠ "" → f t = Eventually r →
  update t (filter_box b l text n tm None pendingFor vs)
  = filter_box b (synthetic b text "Checking..." true :: others l) text n
               (Some (length vs, others l)) (Some (length vs))
               (Some (default t pendingFor))
               (vs ++ [mkValidationPromise t r false []]).
Proof.
  intros Ht Hr. unfold update. rewrite bool_decide_eq_true_2 by done.
  unfold validate_for. simpl. rewrite Hf, Hr. reflexivity.
Qed.

Lemma update_reuses (t : string) (p : nat) (l : list Item) (text : string)
    (n : nat) (tm : option (nat * list Item)) (pendingFor : option string)
    (vs : list ValidationPromise) :
  t ≠ "" →
  update t (filter_box b l text n tm (Some p) pendingFor vs)
  = filter_box b (synthetic b text "Checking..." true :: others l) text n
               (Some (p, others l)) (Some p) (Some (default t pendingFor)) vs.
Proof.
  intros Ht. unfold update. rewrite bool_decide_eq_true_2 by done. reflexivity.
Qed.

Lemma timeout_attaches (p : nat) (captured l : list Item) (text : string) (n : nat)
    (pending : option nat) (pendingFor : option string) (vs : list ValidationPromise)
    (v : ValidationPromise) :
  p = length vs → settled v = false →
  handle TimeoutFires
    (filter_box b l text n (Some (p, captured)) pending pendingFor (vs ++ [v]))
  = filter_box b l text (S n) None pending pendingFor
      (vs ++ [mkValidationPromise (requested_for v) (outcome v) false
                                  (reactions v ++ [captured])]).
Proof.
  intros -> Hv. unfold handle. simpl.
  rewrite list_lookup_middle by done. rewrite Hv.
  unfold set_validations, filter_box. simpl.
  rewrite insert_app_r_alt by done. rewrite Nat.sub_diag. reflexivity.
Qed.

Lemma validated_stale (captured : list Item) (result r : option string)
    (validatedFor text : string) (l : list Item) (n : nat)
    (tm : option (nat * list Item)) (pending : option nat) (vs : list ValidationPromise) :
  validatedFor ≠ text → text ≠ "" → f text = Eventually r →
  validated captured result
    (filter_box b l text n tm pending (Some validatedFor) vs)
  = filter_box b (synthetic b text "Checking..." true :: others l) text n
               (Some (length vs, others l)) (Some (length vs)) (Some text)
               (vs ++ [mkValidationPromise text r false []]).
Proof.
  intros Hne Ht Hr. unfold validated. simpl.
  rewrite bool_decide_eq_true_2 by congruence.
  change (set_pendingValue None (set_pendingValidation None
            (filter_box b l text n tm pending (Some validatedFor) vs)))
    with (filter_box b l text n tm None None vs).
  by rewrite (update_requests text r).
Qed.

Lemma validated_current (captured : list Item) (result : option string)
    (text : string) (l : list Item) (n : nat)
    (tm : option (nat * list Item)) (pending : option nat) (vs : list ValidationPromise) :
  validated captured result (filter_box b l text n tm pending (Some text) vs)
  = filter_box b (synthetic b text (default "" result) (reports_failure result) :: captured)
               text n tm None None vs.
Proof.
  unfold validated. simpl. rewrite bool_decide_eq_false_2 by (intros ?; done).
  reflexivity.
Qed.

Lemma resolves_runs (p : nat) (l : list Item) (text : string) (n : nat)
    (tm : option (nat * list Item)) (pending : option nat) (pendingFor : option string)
    (vs : list ValidationPromise) (v : ValidationPromise) :
  p = length vs → settled v = false →
  handle (Resolves p) (filter_box b l text n tm pending pendingFor (vs ++ [v]))
  = foldl (λ b' captured, busy pred (validated captured (outcome v) b'))
          (filter_box b l text n tm pending pendingFor
             (vs ++ [mkValidationPromise (requested_for v) (outcome v) true []]))
          (reactions v).
Proof.
  intros -> Hv. unfold handle. simpl.
  rewrite list_lookup_middle by done. rewrite Hv.
  unfold set_validations, filter_box. simpl.
  rewrite insert_app_r_alt by done. rewrite Nat.sub_diag. reflexivity.
Qed.

Lemma changes_value (t : string) (l : list Item) (text : string) (n : nat)
    (tm : option (nat * list Item)) (pending : option nat) (pendingFor : option string)
    (vs : list ValidationPromise) :
  handle (ChangeValue t) (filter_box b l text n tm pending pendingFor vs)
  = update t (filter_box b l t n tm pending pendingFor vs).
Proof. reflexivity. Qed.

Lemma busy_filter_box (g : nat → nat) (l : list Item) (text : string) (n : nat)
    (tm : option (nat * list Item)) (pending : option nat) (pendingFor : option string)
    (vs : list ValidationPromise) :
  busy g (filter_box b l text n tm pending pendingFor vs)
  = filter_box b l text (g n) tm pending pendingFor vs.
Proof. reflexivity. Qed.

End Events.

Lemma run_cons (ev : Event) (evs : list Event) (b : FilterBox) :
  run (ev :: evs) b = run evs (handle ev b).
Proof. reflexivity. Qed.

(** The trace of the race, from any filter box with no validation pending:
    the second callback waiting on the promise for [t1] finds [pendingValue]
    set to [t2] by the first, and builds the record from the result for
    [t1]. *)
Lemma stale_validation_trace (t1 t2 : string) (r1 r2 : option string)
    (f : string → Validation) (b : FilterBox) :
  validator (settings b) = Some f →
  f t1 = Eventually r1 → f t2 = Eventually r2 →
  t1 ≠ "" → t2 ≠ "" → t1 ≠ t2 →
  pendingValidation b = None → pendingValue b = None →
  let p := length (validations b) in
  let rest := others (items (picker_of b)) in
  run [ChangeValue t1; TimeoutFires; ChangeValue t2; TimeoutFires; Resolves p] b
  = filter_box b (synthetic b t2 (default "" r1) (reports_failure r1) :: rest) t2
               (pendingUpdates (this (base b))) (Some (S p, rest)) None None
               (validations b ++ [mkValidationPromise t1 r1 true [];
                                  mkValidationPromise t2 r2 false []]).
Proof.
  intros Hf Hr1 Hr2 Ht1 Ht2 Hne Hpv Hpval p rest.
  rewrite (filter_box_eta b) at 1. rewrite Hpv, Hpval. subst p rest.
  set (l := items (picker_of b)). set (vs := validations b).
  set (n := pendingUpdates (this (base b))).
  rewrite run_cons, changes_value, (update_requests b f Hf t1 r1) by done.
  rewrite run_cons, (timeout_attaches b) by done.
  rewrite run_cons, changes_value, (update_reuses b) by done.
  rewrite others_synthetic, others_others.
  rewrite run_cons, (timeout_attaches b) by done.
  rewrite run_cons, (resolves_runs b) by done.
  cbn [run foldl reactions outcome requested_for app default].
  rewrite (validated_stale b f Hf _ _ r2) by done.
  rewrite busy_filter_box, validated_current, busy_filter_box.
  rewrite others_synthetic, others_others.
  rewrite length_app, Nat.add_1_r. cbn [Nat.pred].
  by rewrite <- app_assoc.
Qed.

(** C2. With an asynchronous validator and no validation pending: the text
    becomes [t1], the timeout fires while the validation is pending, the
    text becomes another text [t2], the timeout fires again, and then the
    validation requested for [t1] resolves. The synthetic record then shown
    for [t2] carries the result computed for [t1] (its detail and its
    verdict), while the validation requested for [t2] has not resolved. *)
Theorem stale_validation_is_applied (t1 t2 : string) (r1 r2 : option string)
    (f : string → Validation) (b : FilterBox) :
  validator (settings b) = Some f →
  f t1 = Eventually r1 → f t2 = Eventually r2 →
  t1 ≠ "" → t2 ≠ "" → t1 ≠ t2 →
  pendingValidation b = None → pendingValue b = None →
  let p := length (validations b) in
  let b' := run [ChangeValue t1; TimeoutFires; ChangeValue t2; TimeoutFires; Resolves p] b in
  value (picker_of b') = t2
  ∧ validations b' !! p = Some (mkValidationPromise t1 r1 true [])
  ∧ validations b' !! S p = Some (mkValidationPromise t2 r2 false [])
  ∧ inputItem b' = Some (synthetic b t2 (default "" r1) (reports_failure r1)).
Proof.
  intros Hf Hr1 Hr2 Ht1 Ht2 Hne Hpv Hpval p b'. subst b' p.
  rewrite (stale_validation_trace t1 t2 r1 r2 f b) by done.
  split; [done|]. split; [|split].
  - cbn [validations filter_box]. by apply list_lookup_middle.
  - cbn [validations filter_box].
    rewrite (lookup_app_r (validations b)) by lia.
    by replace (S (length (validations b)) - length (validations b)) with 1 by lia.
  - reflexivity.
Qed.

Lemma stale_validation_is_applied_witness :
  inputItem (run [ChangeValue "abc"; TimeoutFires; ChangeValue "abcd"; TimeoutFires;
                  Resolves 0] name_box)
  = Some (synthetic name_box "abcd" "" false).
Proof.
  apply (stale_validation_is_applied "abc" "abcd" None (Some "Must be 3 characters long")
           (λ text, if bool_decide (String.length text = 3) then Eventually None
                    else Eventually (Some "Must be 3 characters long"))
           name_box).
  - reflexivity.
  - reflexivity.
  - reflexivity.
  - discriminate.
  - discriminate.
  - discriminate.
  - reflexivity.
  - reflexivity.
Defined.

(** The same trace on the sample box: the record for "abcd" is shown valid,
    while the validation of "abcd", which reports a failure, is pending. *)
Example stale_validation_sample :
  let b := run [ChangeValue "abc"; TimeoutFires; ChangeValue "abcd"; TimeoutFires; Resolves 0]
               name_box in
  value (picker_of b) = "abcd"
  ∧ (requested_for <$> validations b) = ["abc"; "abcd"]
  ∧ (settled <$> validations b) = [true; false]
  ∧ (outcome <$> validations b) = [None; Some "Must be 3 characters long"]
  ∧ inputItem b
    = Some (mkItem "Enter a name" (Some "abcd") (Some "") (Some true) CUSTOM_USER_INPUT
                   (Some false) None None None).
Proof. vm_compute. done. Qed.

(** The text changes before the timeout has fired: the result for "abc" is
    dropped, the validation is redone for "abcd" and its result is shown. *)
Lemma superseded_validation_is_recomputed :
  let b := run [ChangeValue "abc"; ChangeValue "abcd"; TimeoutFires; Resolves 0] name_box in
  let b' := run [TimeoutFires; Resolves 1] b in
  inputItem b
  = Some (mkItem "Enter a name" (Some "abcd") (Some "Checking...") (Some true)
                 CUSTOM_USER_INPUT (Some true) None None None)
  ∧ inputItem b'
    = Some (mkItem "Enter a name" (Some "abcd") (Some "Must be 3 characters long") (Some true)
                   CUSTOM_USER_INPUT (Some true) None None None).
Proof. vm_compute. done. Qed.

(** * Further properties *)

(** ** Selecting and appending *)

Lemma highlighted_same_labels (ls1 ls2 : list string) (l : list Item) :
  (∀ x, x ∈ ls1 ↔ x ∈ ls2) → highlighted ls1 l = highlighted ls2 l.
Proof.
  intros Hsame. unfold highlighted.
  assert ((list_to_set ls1 : gset string) = list_to_set ls2) as ->; [|done].
  apply set_eq. intros x. rewrite !elem_of_list_to_set. apply Hsame.
Qed.

(** X1. [selectItems] reads nothing of its arguments but their labels: two
    argument lists with the same set of labels, whatever their other fields,
    their order and their repetitions, give the same outcome and leave the
    prompter in the same state. *)
Theorem selectItems_depends_on_labels (args1 args2 : list Item) (s : State) :
  (∀ x, x ∈ label <$> args1 ↔ x ∈ label <$> args2) →
  selectItems (Some <$> args1) s = selectItems (Some <$> args2) s.
Proof.
  intros Hsame.
  rewrite (selectItems_run _ _ _ (labels_of_defined args1)).
  rewrite (selectItems_run _ _ _ (labels_of_defined args2)).
  by rewrite (highlighted_same_labels _ _ _ Hsame).
Qed.

Lemma selectItems_depends_on_labels_witness :
  selectItems (Some <$> [item "x" (VNum 1); item "y" VNull; item "x" (VNum 1)])
              (showing [item "y" (VNum 3); item "x" (VNum 4)])
  = selectItems (Some <$> [item "y" (VNum 7); item "x" VUndefined])
                (showing [item "y" (VNum 3); item "x" (VNum 4)]).
Proof.
  apply (selectItems_depends_on_labels
           [item "x" (VNum 1); item "y" VNull; item "x" (VNum 1)]
           [item "y" (VNum 7); item "x" VUndefined]
           (showing [item "y" (VNum 3); item "x" (VNum 4)])).
  intros x. simpl. rewrite !elem_of_cons, !elem_of_nil. tauto.
Defined.

Lemma labels_of_undefined (args : list (option Item)) :
  None ∈ args →
  labels_of args = Throw (TypeError "Cannot read properties of undefined (reading 'label')").
Proof.
  induction args as [|[i|] args IH]; intros Hin.
  - by apply elem_of_nil in Hin.
  - apply elem_of_cons in Hin as [?|Hin]; [done|]. simpl. by rewrite IH.
  - done.
Qed.

Section Appending.

Context (imports : Imports).

(** X2. On a picker that keeps what is assigned to it: when the highlighted
    list holds [undefined] (what [selectItems] leaves on an empty list),
    [appendItems] throws a TypeError on reading the
    label of that entry, and it does so after the new list has been assigned:
    the list is then a permutation of the old records and the new ones, and
    the highlight is not brought up to date. *)
Theorem appendItems_undefined_highlight_throws (new : list Item) (s : State) :
  None ∈ activeItems (quickPick (this s)) →
  appendItems imports new s
  = (Throw (TypeError "Cannot read properties of undefined (reading 'label')"),
     on_this (on_quickPick (set_items (appended imports s new))) s)
  ∧ items (quickPick (this (appendItems imports new s).2))
    ≡ₚ items (quickPick (this s))
       ++ (applyDescriptionSuffix (localizedText_recentlyUsed imports) <$> new).
Proof.
  intros Hin.
  rewrite (appendItems_throws imports new s _ (labels_of_undefined _ Hin)).
  split; [done|]. simpl. apply Array_sort_perm.
Qed.

(** What one append does to a state whose highlight is defined. *)
Lemma appendItems_defined (new : list Item) (s : State) (act : list Item) :
  activeItems (quickPick (this s)) = Some <$> act →
  ∃ s', appendItems imports new s = (Normal tt, s')
    ∧ items (quickPick (this s')) = appended imports s new
    ∧ activeItems (quickPick (this s'))
      = highlighted (label <$> act) (appended imports s new)
    ∧ options (this s') = options (this s)
    ∧ isShowingPlaceholder (this s') = isShowingPlaceholder (this s)
    ∧ pendingUpdates (this s') = pendingUpdates (this s)
    ∧ _recentItem (this s') = _recentItem (this s)
    ∧ DEFAULT_ERROR_ITEM s' = DEFAULT_ERROR_ITEM s.
Proof.
  intros Hact.
  rewrite (appendItems_run imports new s (label <$> act))
    by (rewrite Hact; apply labels_of_defined).
  eexists. split; [done|]. by destruct s as [[q o f r lp n] d].
Qed.

Lemma appended_perm (new : list Item) (s : State) :
  appended imports s new
  ≡ₚ items (quickPick (this s))
     ++ (applyDescriptionSuffix (localizedText_recentlyUsed imports) <$> new).
Proof. apply Array_sort_perm. Qed.

Lemma appended_recent_first (new : list Item) (s : State) :
  recent_first (appended imports s new).
Proof. apply Array_sort_recent_first. Qed.

(** X3. With every highlighted entry defined, [appendItems] does not throw;
    the list afterwards is a permutation of the old list followed by the new
    records (those flagged [recentlyUsed] with the suffix on their
    description); every flagged record stands before every unflagged one; the
    placeholder flag and the filter text are as before. *)
Theorem appendItems_adds_and_sorts (new : list Item) (s : State) :
  Forall is_Some (activeItems (quickPick (this s))) →
  ∃ s', appendItems imports new s = (Normal tt, s')
    ∧ items (quickPick (this s'))
      ≡ₚ items (quickPick (this s))
         ++ (applyDescriptionSuffix (localizedText_recentlyUsed imports) <$> new)
    ∧ (∀ i j a b,
         items (quickPick (this s')) !! i = Some a →
         items (quickPick (this s')) !! j = Some b →
         truthy (recentlyUsed a) = true → truthy (recentlyUsed b) = false →
         i < j)
    ∧ isShowingPlaceholder (this s') = isShowingPlaceholder (this s)
    ∧ value (quickPick (this s')) = value (quickPick (this s)).
Proof.
  intros [act Hact]%defined_arguments.
  destruct (appendItems_defined new s act Hact)
    as (s' & Hrun & Hitems & _ & _ & Hflag & _).
  exists s'. split; [done|]. rewrite Hitems. split; [apply appended_perm|].
  split.
  { intros i j a b. apply recent_first_lookup, appended_recent_first. }
  split; [done|].
  rewrite (appendItems_run imports new s (label <$> act)) in Hrun
    by (rewrite Hact; apply labels_of_defined).
  injection Hrun as <-. by destruct s as [[q o f r lp n] d].
Qed.

(** X4. With one record of the list highlighted, that record is still
    highlighted after [appendItems]; the highlight is then exactly the listed
    records that bear its label, and it is that record alone when the labels
    of the new list are distinct. *)
Theorem appendItems_keeps_highlight (new : list Item) (s : State) (a : Item) :
  activeItems (quickPick (this s)) = [Some a] →
  a ∈ items (quickPick (this s)) →
  ∃ s', appendItems imports new s = (Normal tt, s')
    ∧ Some a ∈ activeItems (quickPick (this s'))
    ∧ (∀ x, Some x ∈ activeItems (quickPick (this s')) ↔
            x ∈ items (quickPick (this s')) ∧ label x = label a)
    ∧ (NoDup (label <$> items (quickPick (this s'))) →
       activeItems (quickPick (this s')) = [Some a]).
Proof.
  intros Hact Ha.
  destruct (appendItems_defined new s [a] Hact) as (s' & Hrun & Hitems & Hactive & _).
  exists s'. split; [done|].
  assert (a ∈ items (quickPick (this s'))) as Ha'.
  { rewrite Hitems, appended_perm. apply elem_of_app. by left. }
  rewrite Hactive. simpl. rewrite <- Hitems.
  rewrite (highlighted_label _ a Ha').
  split; [|split].
  - apply list_elem_of_fmap. exists a. split; [done|].
    apply list_elem_of_filter. done.
  - intros x. rewrite list_elem_of_fmap. split.
    + intros (y & [= ->] & Hy%list_elem_of_filter). tauto.
    + intros [Hx Hl]. exists x. split; [done|]. by apply list_elem_of_filter.
  - intros Hnd. by rewrite filter_label_unique.
Qed.

End Appending.

Lemma appendItems_undefined_highlight_throws_witness :
  (appendItems sample_imports [item "x" VNull]
     (selectItems [] (initial_state sample_imports DEFAULT_QUICKPICK_OPTIONS)).2).1
  = Throw (TypeError "Cannot read properties of undefined (reading 'label')").
Proof.
  rewrite (proj1 (appendItems_undefined_highlight_throws sample_imports [item "x" VNull]
     (selectItems [] (initial_state sample_imports DEFAULT_QUICKPICK_OPTIONS)).2
     ltac:(left))).
  reflexivity.
Defined.

Lemma appendItems_adds_and_sorts_witness :
  ∃ s', appendItems sample_imports [used_item] (showing [item "b" VNull]) = (Normal tt, s')
    ∧ isShowingPlaceholder (this s') = None.
Proof.
  destruct (appendItems_adds_and_sorts sample_imports [used_item] (showing [item "b" VNull]))
    as (s' & Hrun & _ & _ & Hflag & _).
  - constructor.
  - exists s'. split; assumption.
Defined.

Lemma appendItems_keeps_highlight_witness :
  ∃ s', appendItems sample_imports [used_item]
          (selectItems [Some (item "b" VNull)] (showing [item "b" VNull])).2 = (Normal tt, s')
    ∧ activeItems (quickPick (this s')) = [Some (item "b" VNull)].
Proof.
  destruct (appendItems_keeps_highlight sample_imports [used_item]
              (selectItems [Some (item "b" VNull)] (showing [item "b" VNull])).2
              (item "b" VNull))
    as (s' & Hrun & _ & _ & Hone).
  - reflexivity.
  - left.
  - exists s'. split; [assumption|]. apply Hone.
    injection Hrun as <-. apply (bool_decide_unpack _). vm_compute. exact I.
Defined.

(** ** More on loading *)

Section MoreLoading.

Context (imports : Imports).

Lemma cleared_recentItem (s : State) : _recentItem (this (cleared s)) = _recentItem (this s).
Proof. unfold cleared. destruct (truthy _); reflexivity. Qed.

Lemma cleared_value (s : State) :
  value (quickPick (this (cleared s))) = value (quickPick (this s)).
Proof. unfold cleared. destruct (truthy _); reflexivity. Qed.

(** X5. With every highlighted entry defined, loading a promise that is
    fulfilled with the records [l] gives the same outcome and the same final
    state as loading the array [l]: the busy counter is back where it was,
    and the emptiness test made with [pendingUpdates > 1] while the update is
    counted decides as the one made with [pendingUpdates > 0]. *)
Theorem loadItems_fulfilled_as_array (l : list Item) (s : State) :
  Forall is_Some (activeItems (quickPick (this s))) →
  loadItems imports (ItemsPromise (Fulfilled l)) None s
  = loadItems imports (ItemsArray l) None s.
Proof.
  intros [act Hact]%defined_arguments.
  rewrite loadItems_promise_run, loadItems_array_run.
  unfold addBusyUpdate, finally, catch, then_, mbind, M_bind, modify, get.
  cbn [fst snd].
  set (s1 := on_this (λ p, set_pendingUpdates (S (pendingUpdates p)) p) (cleared s)).
  assert (activeItems (quickPick (this s1)) = Some <$> act) as Hact1
    by (subst s1; simpl; by rewrite cleared_activeItems).
  assert (activeItems (quickPick (this (cleared s))) = Some <$> act) as Hact0
    by (by rewrite cleared_activeItems).
  destruct (appendItems_defined imports l s1 act Hact1)
    as (s2 & Hrun2 & Hitems2 & Hhl2 & Hopt2 & Hflag2 & Hpend2 & Hrec2 & Hdef2).
  destruct (appendItems_defined imports l (cleared s) act Hact0)
    as (s3 & Hrun3 & Hitems3 & Hhl3 & Hopt3 & Hflag3 & Hpend3 & Hrec3 & Hdef3).
  rewrite Hrun2, Hrun3.
  rewrite (appendItems_run imports l s1 (label <$> act)) in Hrun2
    by (rewrite Hact1; apply labels_of_defined).
  rewrite (appendItems_run imports l (cleared s) (label <$> act)) in Hrun3
    by (rewrite Hact0; apply labels_of_defined).
  injection Hrun2 as <-. injection Hrun3 as <-.
  subst s1. unfold checkEmpty, mbind, M_bind, get, modify. simpl.
  unfold appended. simpl.
  destruct (cleared s) as [[q o f r lp n] d]. simpl.
  destruct (Array_sort _ _) as [|x xs]; simpl; [|done].
  destruct n as [|[|n]]; simpl; try done.
  destruct (noItemsFoundItem o) as [[str|[| |addr own|new]]|]; simpl; done.
Qed.


Lemma loadItems_rejected_run (e : Error) (s : State) :
  loadItems imports (ItemsPromise (Rejected e)) None s
  = addBusyUpdate
      (finally (addErrorItem imports e)
         (s ← get; checkEmpty imports (Some (bool_decide (1 < pendingUpdates (this s))))))
      None (cleared s).
Proof. by rewrite loadItems_promise_run. Qed.

Lemma addErrorItem_unset (e : Error) (s : State) :
  falsy_errorItem (errorItem (options (this s))) = true →
  addErrorItem imports e s = (Normal tt, s).
Proof.
  intros Hfalsy. unfold addErrorItem, mbind, M_bind, get.
  destruct (errorItem (options (this s))) as [eo|]; [|done].
  by rewrite Hfalsy.
Qed.

(** X6. With [errorItem] unset, or set to the empty string, a rejected
    promise is swallowed without a trace: [loadItems] resolves and no row is
    added. If a record is listed once a placeholder has been cleared, the
    state is that one; if the list is empty, nothing else is pending and
    [noItemsFoundItem] is the default, the 'no items found' placeholder is
    what is shown. *)
Theorem loadItems_rejected_without_errorItem (e : Error) (s : State) :
  falsy_errorItem (errorItem (options (this s))) = true →
  (loadItems imports (ItemsPromise (Rejected e)) None s).1 = Normal tt
  ∧ (items (quickPick (this (cleared s))) ≠ [] →
     loadItems imports (ItemsPromise (Rejected e)) None s = (Normal tt, cleared s))
  ∧ (items (quickPick (this (cleared s))) = [] →
     pendingUpdates (this s) = 0 →
     noItemsFoundItem (options (this s)) = Some (OptObject TheDefaultNoItemsItem) →
     items (quickPick (this (loadItems imports (ItemsPromise (Rejected e)) None s).2))
     = [DEFAULT_NO_ITEMS_ITEM imports]).
Proof.
  intros Hfalsy. rewrite loadItems_rejected_run.
  unfold addBusyUpdate, finally, mbind, M_bind, modify, get. cbn [fst snd].
  set (s1 := on_this (λ p, set_pendingUpdates (S (pendingUpdates p)) p) (cleared s)).
  rewrite addErrorItem_unset by (subst s1; simpl; by rewrite cleared_options).
  assert (items (quickPick (this s1)) = items (quickPick (this (cleared s)))) as Hitems
    by done.
  destruct (items (quickPick (this (cleared s)))) as [|x xs] eqn:E.
  - destruct (decide (pendingUpdates (this s) = 0)) as [Hp|Hp].
    + assert (bool_decide (1 < pendingUpdates (this s1)) = false) as ->.
      { subst s1. simpl. rewrite cleared_pendingUpdates, Hp. done. }
      unfold checkEmpty, mbind, M_bind, get, modify. rewrite Hitems. simpl.
      rewrite (selectItems_run [] []) by done. simpl.
      split; [done|]. split; [done|]. intros _ _ Hopt.
      subst s1. simpl. by rewrite cleared_options, Hopt.
    + assert (bool_decide (1 < pendingUpdates (this s1)) = true) as ->.
      { subst s1. simpl. rewrite cleared_pendingUpdates. apply bool_decide_eq_true_2. lia. }
      rewrite checkEmpty_pending. simpl. split; [done|]. split; [done|]. done.
  - rewrite checkEmpty_nonempty by (rewrite Hitems; done). simpl.
    split; [done|]. split; [|done]. intros _. f_equal.
    subst s1. by destruct (cleared s) as [[q o f r lp n] d].
Qed.

Lemma addErrorItem_string (e : Error) (l : string) (s : State) (ls : list string) :
  errorItem (options (this s)) = Some (ErrOption (OptString l)) →
  l ≠ "" →
  truthy (recentlyUsed (DEFAULT_ERROR_ITEM s)) = false →
  labels_of (activeItems (quickPick (this s))) = Normal ls →
  let row := with_default_detail (message e) (set_label l (DEFAULT_ERROR_ITEM s)) in
  let shown := Array_sort (sort (options (this s))) (items (quickPick (this s)) ++ [row]) in
  addErrorItem imports e s
  = (Normal tt,
     mkState
       (set_isShowingPlaceholder (Some true)
          (on_quickPick (λ q, set_activeItems (highlighted ls shown) (set_items shown q))
                        (this s)))
       (DEFAULT_ERROR_ITEM s)).
Proof.
  intros Hopt Hl Hplain Hlabels row shown.
  unfold addErrorItem, mbind, M_bind, get, modify. rewrite Hopt.
  assert (falsy_errorItem (Some (ErrOption (OptString l))) = false) as ->
    by (by destruct l).
  simpl.
  rewrite (appendItems_run _ _ _ ls) by (simpl; done).
  unfold appended. simpl. fold row.
  rewrite applyDescriptionSuffix_not_recent.
  2:{ unfold row. rewrite with_default_detail_recentlyUsed. done. }
  by destruct s as [[q o f r lp n] d].
Qed.

(** X7. With [errorItem] given as a string that is not empty, every
    highlighted entry defined and the module-level default error item not
    flagged [recentlyUsed]: a failed load resolves and adds one row, a copy
    of the module-level default under that label. The detail of the row is
    the detail the default holds at that time (one that an earlier failure
    under the default [errorItem] wrote into it, for one), and the message
    of this rejection only if the default holds none. The copy is what is
    written: the default, the options and the defined highlight are as
    before, so the same holds for the next failure. *)
Theorem string_errorItem_copies_the_default (e : Error) (l : string) (s : State) :
  errorItem (options (this s)) = Some (ErrOption (OptString l)) →
  l ≠ "" →
  truthy (recentlyUsed (DEFAULT_ERROR_ITEM s)) = false →
  Forall is_Some (activeItems (quickPick (this s))) →
  ∃ s' row,
    loadItems imports (ItemsPromise (Rejected e)) None s = (Normal tt, s')
    ∧ items (quickPick (this s')) ≡ₚ items (quickPick (this (cleared s))) ++ [row]
    ∧ row = set_detail (Some (default (message e) (detail (DEFAULT_ERROR_ITEM s))))
                       (set_label l (DEFAULT_ERROR_ITEM s))
    ∧ detail row = match detail (DEFAULT_ERROR_ITEM s) with
                   | Some written => Some written
                   | None => Some (message e)
                   end
    ∧ errorItem (options (this s')) = Some (ErrOption (OptString l))
    ∧ DEFAULT_ERROR_ITEM s' = DEFAULT_ERROR_ITEM s
    ∧ Forall is_Some (activeItems (quickPick (this s'))).
Proof.
  intros Hopt Hl Hplain [act Hact]%defined_arguments.
  rewrite loadItems_rejected_run.
  unfold addBusyUpdate, finally, mbind, M_bind, modify, get. cbn [fst snd].
  erewrite addErrorItem_string with (ls := label <$> act) (l := l); cycle 1.
  { simpl. by rewrite cleared_options. }
  { done. }
  { simpl. by rewrite cleared_DEFAULT_ERROR_ITEM. }
  { simpl. rewrite cleared_activeItems, Hact. apply labels_of_defined. }
  simpl. rewrite cleared_DEFAULT_ERROR_ITEM.
  rewrite checkEmpty_nonempty.
  2:{ simpl. intros E. apply (f_equal length) in E.
      rewrite Array_sort_length, length_app in E. simpl in E. lia. }
  eexists. eexists. split; [done|]. simpl.
  split; [apply Array_sort_perm|].
  split.
  { unfold with_default_detail. simpl. clear Hplain.
    generalize (DEFAULT_ERROR_ITEM s). intros [lb ds [dt|] al da inv oc sk ru]; reflexivity. }
  split.
  { unfold with_default_detail. simpl. clear Hplain.
    generalize (DEFAULT_ERROR_ITEM s). intros [lb ds [dt|] al da inv oc sk ru]; reflexivity. }
  split; [by rewrite cleared_options|]. split; [done|].
  apply highlighted_defined. intros E. apply (f_equal length) in E.
  rewrite Array_sort_length, length_app in E. simpl in E. lia.
Qed.

(** X8. With the default [errorItem]: a failed load adds one row to the
    list and marks the list as a placeholder, so that the next load of an
    array that is not empty clears the list first. What is shown then is
    exactly the new records: the error row is gone, and so are the records
    listed before the failure. *)
Theorem load_after_failure_replaces_list (e : Error) (new : list Item) (s : State) :
  errorItem (options (this s)) = Some (ErrOption (OptObject TheDefaultErrorItem)) →
  truthy (recentlyUsed (DEFAULT_ERROR_ITEM s)) = false →
  Forall is_Some (activeItems (quickPick (this s))) →
  new ≠ [] →
  ∃ s1 s2,
    loadItems imports (ItemsPromise (Rejected e)) None s = (Normal tt, s1)
    ∧ length (items (quickPick (this s1))) = S (length (items (quickPick (this (cleared s)))))
    ∧ truthy (isShowingPlaceholder (this s1)) = true
    ∧ loadItems imports (ItemsArray new) None s1 = (Normal tt, s2)
    ∧ items (quickPick (this s2))
      ≡ₚ (applyDescriptionSuffix (localizedText_recentlyUsed imports) <$> new)
    ∧ truthy (isShowingPlaceholder (this s2)) = false.
Proof.
  intros Hopt Hplain Hactive Hnew.
  destruct (loadItems_rejected_adds_error_row imports e s Hopt Hplain Hactive)
    as (s1 & Hrun1 & Hitems1 & _ & Hflag1 & _ & _ & [act Hact]%defined_arguments).
  exists s1. eexists. split; [done|].
  split; [by rewrite Hitems1, length_app, Nat.add_1_r|].
  split; [by rewrite Hflag1|].
  rewrite loadItems_array_run.
  assert (items (quickPick (this (cleared s1))) = []) as Hempty
    by (apply cleared_items; right; by rewrite Hflag1).
  unfold mbind at 1. unfold M_bind.
  rewrite (appendItems_run imports new (cleared s1) (label <$> act))
    by (rewrite cleared_activeItems, Hact; apply labels_of_defined).
  assert (appended imports (cleared s1) new
          ≡ₚ applyDescriptionSuffix (localizedText_recentlyUsed imports) <$> new) as Hperm.
  { unfold appended. rewrite Hempty. apply Array_sort_perm. }
  rewrite checkEmpty_nonempty.
  2:{ simpl. intros E. rewrite E in Hperm. apply Permutation_nil_l in Hperm.
      by destruct new. }
  split; [done|]. simpl. split; [done|]. apply cleared_flag.
Qed.

(** X9. [clearAndLoadItems] with an array that is not empty: the list
    afterwards is exactly the new records, whatever was listed before. If a
    new record bears the label of a record highlighted before, the highlight
    is exactly the new records that bear such a label; if none does, the
    highlight is the first record of the list. *)
Theorem clearAndLoadItems_selects_by_label (new : list Item) (previous : list Item)
    (s : State) :
  activeItems (quickPick (this s)) = Some <$> previous →
  new ≠ [] →
  ∃ s', clearAndLoadItems imports (ItemsArray new) s = (Normal tt, s')
    ∧ items (quickPick (this s'))
      ≡ₚ (applyDescriptionSuffix (localizedText_recentlyUsed imports) <$> new)
    ∧ ((∃ x, x ∈ items (quickPick (this s')) ∧ label x ∈ label <$> previous) →
       ∀ x, Some x ∈ activeItems (quickPick (this s')) ↔
            x ∈ items (quickPick (this s')) ∧ label x ∈ label <$> previous)
    ∧ ((∀ x, x ∈ items (quickPick (this s')) → label x ∉ label <$> previous) →
       activeItems (quickPick (this s')) = [items (quickPick (this s')) !! 0]).
Proof.
  intros Hact Hnew.
  unfold clearAndLoadItems, mbind at 1, M_bind, get.
  unfold mbind at 1. unfold M_bind. rewrite clearItems_run.
  set (s0 := on_this _ s).
  assert (activeItems (quickPick (this s0)) = Some <$> previous) as Hact0 by done.
  unfold mbind at 1. unfold M_bind.
  rewrite loadItems_array_run.
  assert (cleared s0 = s0) as -> by done.
  unfold mbind at 1. unfold M_bind.
  destruct (appendItems_defined imports new s0 previous Hact0)
    as (s1 & Hrun & Hitems & Hhl & _).
  rewrite Hrun.
  assert (items (quickPick (this s1))
          ≡ₚ applyDescriptionSuffix (localizedText_recentlyUsed imports) <$> new) as Hperm.
  { rewrite Hitems. unfold appended. apply Array_sort_perm. }
  rewrite checkEmpty_nonempty.
  2:{ intros E. rewrite E in Hperm. apply Permutation_nil_l in Hperm. by destruct new. }
  rewrite Hact. rewrite (selectItems_run _ _ _ (labels_of_defined previous)).
  eexists. split; [done|]. simpl. split; [done|]. split.
  - intros (y & Hy & Hly) x.
    rewrite (highlighted_some _ _ y Hy Hly), list_elem_of_fmap. split.
    + intros (z & [= ->] & Hz%list_elem_of_filter).
      rewrite elem_of_list_to_set in Hz. tauto.
    + intros [Hx Hl]. exists x. split; [done|]. apply list_elem_of_filter.
      by rewrite elem_of_list_to_set.
  - intros Hno. by apply highlighted_none.
Qed.

End MoreLoading.

Lemma loadItems_fulfilled_as_array_witness :
  loadItems sample_imports (ItemsPromise (Fulfilled [used_item])) None
            (showing [item "b" VNull])
  = loadItems sample_imports (ItemsArray [used_item]) None (showing [item "b" VNull]).
Proof.
  apply (loadItems_fulfilled_as_array sample_imports [used_item] (showing [item "b" VNull])).
  constructor.
Defined.

Lemma loadItems_rejected_without_errorItem_witness :
  (loadItems sample_imports (ItemsPromise (Rejected (TypeError "down"))) None
     (initial_state sample_imports
        (mkOptions None (Some (OptObject TheDefaultNoItemsItem)) None))).1
  = Normal tt.
Proof.
  apply (loadItems_rejected_without_errorItem sample_imports (TypeError "down")
           (initial_state sample_imports
              (mkOptions None (Some (OptObject TheDefaultNoItemsItem)) None))).
  reflexivity.
Defined.

Lemma string_errorItem_copies_the_default_witness :
  ∃ s' row,
    loadItems sample_imports (ItemsPromise (Rejected (TypeError "second"))) None
      (mkState
         (new_QuickPickPrompter new_picker
            (mkOptions None None (Some (ErrOption (OptString "Failed")))))
         (with_default_detail "first" (DEFAULT_ERROR_ITEM_literal sample_imports)))
    = (Normal tt, s')
    ∧ label row = "Failed" ∧ detail row = Some "first".
Proof.
  destruct (string_errorItem_copies_the_default sample_imports (TypeError "second") "Failed"
              (mkState
                 (new_QuickPickPrompter new_picker
                    (mkOptions None None (Some (ErrOption (OptString "Failed")))))
                 (with_default_detail "first" (DEFAULT_ERROR_ITEM_literal sample_imports))))
    as (s' & row & Hrun & _ & Hrow & Hdetail & _).
  - reflexivity.
  - discriminate.
  - reflexivity.
  - constructor.
  - exists s', row. split; [assumption|]. split; [by rewrite Hrow|assumption].
Defined.

Lemma load_after_failure_replaces_list_witness :
  ∃ s1 s2,
    loadItems sample_imports (ItemsPromise (Rejected (TypeError "down"))) None
      (initial_state sample_imports DEFAULT_QUICKPICK_OPTIONS) = (Normal tt, s1)
    ∧ loadItems sample_imports (ItemsArray [item "b" VNull]) None s1 = (Normal tt, s2)
    ∧ truthy (isShowingPlaceholder (this s2)) = false.
Proof.
  destruct (load_after_failure_replaces_list sample_imports (TypeError "down")
              [item "b" VNull] (initial_state sample_imports DEFAULT_QUICKPICK_OPTIONS))
    as (s1 & s2 & Hrun1 & _ & _ & Hrun2 & _ & Hflag).
  - reflexivity.
  - reflexivity.
  - constructor.
  - discriminate.
  - exists s1, s2. repeat split; assumption.
Defined.

Lemma clearAndLoadItems_selects_by_label_witness :
  ∃ s', clearAndLoadItems sample_imports (ItemsArray [item "c" VNull; item "b" (VNum 1)])
          (selectItems [Some (item "b" VNull)] (showing [item "a" VNull; item "b" VNull])).2
        = (Normal tt, s')
    ∧ items (quickPick (this s'))
      ≡ₚ applyDescriptionSuffix "recently used" <$> [item "c" VNull; item "b" (VNum 1)].
Proof.
  destruct (clearAndLoadItems_selects_by_label sample_imports
              [item "c" VNull; item "b" (VNum 1)] [item "b" VNull]
              (selectItems [Some (item "b" VNull)]
                 (showing [item "a" VNull; item "b" VNull])).2)
    as (s' & Hrun & Hitems & _).
  - reflexivity.
  - discriminate.
  - exists s'. split; assumption.
Defined.

Section Refreshing.

Context (imports : Imports).

(** X10. [refreshItems] without a loader leaves the prompter untouched. With
    a loader that returns an array that is not empty (and every highlighted
    entry defined), the list afterwards is exactly the records of the loader,
    the placeholder flag is [false] and every highlighted entry is defined. *)
Theorem refreshItems_replaces_list (new : list Item) (s : State) :
  Forall is_Some (activeItems (quickPick (this s))) →
  new ≠ [] →
  refreshItems imports None s = (Normal tt, s)
  ∧ ∃ s', refreshItems imports (Some (ItemsArray new)) s = (Normal tt, s')
      ∧ items (quickPick (this s'))
        ≡ₚ (applyDescriptionSuffix (localizedText_recentlyUsed imports) <$> new)
      ∧ isShowingPlaceholder (this s') = Some false
      ∧ Forall is_Some (activeItems (quickPick (this s'))).
Proof.
  intros [act Hact]%defined_arguments Hnew. split; [done|].
  unfold refreshItems, mbind at 1, M_bind. rewrite clearItems_run.
  set (s0 := on_this _ s).
  assert (activeItems (quickPick (this s0)) = Some <$> act) as Hact0 by done.
  rewrite loadItems_array_run.
  assert (cleared s0 = s0) as -> by done.
  unfold mbind at 1. unfold M_bind.
  destruct (appendItems_defined imports new s0 act Hact0)
    as (s1 & Hrun & Hitems & Hhl & _ & Hflag & _).
  rewrite Hrun.
  assert (items (quickPick (this s1))
          ≡ₚ applyDescriptionSuffix (localizedText_recentlyUsed imports) <$> new) as Hperm.
  { rewrite Hitems. unfold appended. apply Array_sort_perm. }
  assert (items (quickPick (this s1)) ≠ []) as Hne.
  { intros E. rewrite E in Hperm. apply Permutation_nil_l in Hperm. by destruct new. }
  rewrite checkEmpty_nonempty by done.
  exists s1. split; [done|]. split; [done|]. split; [by rewrite Hflag|].
  rewrite Hhl. apply highlighted_defined. by rewrite <- Hitems.
Qed.

End Refreshing.

Lemma refreshItems_replaces_list_witness :
  ∃ s', refreshItems sample_imports (Some (ItemsArray [used_item]))
          (showing [item "b" VNull]) = (Normal tt, s')
    ∧ isShowingPlaceholder (this s') = Some false.
Proof.
  destruct (refreshItems_replaces_list sample_imports [used_item] (showing [item "b" VNull]))
    as (_ & s' & Hrun & _ & Hflag & _).
  - constructor.
  - discriminate.
  - exists s'. split; assumption.
Defined.

(** ** Streams *)

Lemma nonempty_after {A B} (f : A → B) (l : list B) (old : list B) (new : list A) :
  new ≠ [] → l ≡ₚ old ++ (f <$> new) → l ≠ [].
Proof.
  intros Hnew Hperm E. apply Permutation_length in Hperm.
  rewrite E, length_app, length_fmap in Hperm. destruct new; [done|]. simpl in Hperm. lia.
Qed.

Lemma concat_nonempty {A} (batches : list (list A)) :
  batches ≠ [] → Forall (λ b, b ≠ []) batches → concat batches ≠ [].
Proof.
  intros Hne Hall. destruct Hall as [|b bs Hb _]; [done|].
  simpl. intros [? _]%app_eq_nil. done.
Qed.

Lemma addBusyUpdate_run (update : M State unit) (disableInput : option bool) (s : State) :
  addBusyUpdate update disableInput s
  = let after := update (on_this (λ p, set_pendingUpdates (S (pendingUpdates p)) p) s) in
    (after.1, on_this (λ p, set_pendingUpdates (pred (pendingUpdates p)) p) after.2).
Proof.
  unfold addBusyUpdate, finally, mbind, M_bind, modify. simpl.
  by destruct (update _) as [[[]|e] s'].
Qed.

Lemma catch_normal {S} (m : M S unit) (h : Error → M S unit) (s s' : S) :
  m s = (Normal tt, s') → catch m h s = (Normal tt, s').
Proof. intros H. unfold catch. by rewrite H. Qed.

Lemma catch_throw {S} (m : M S unit) (h : Error → M S unit) (e : Error) (s s' : S) :
  m s = (Throw e, s') → catch m h s = h e s'.
Proof. intros H. unfold catch. by rewrite H. Qed.

Lemma finally_run {S} (m f : M S unit) (r : completion unit) (s s' s'' : S) :
  m s = (r, s') → f s' = (Normal tt, s'') → finally m f s = (r, s'').
Proof. intros Hm Hf. unfold finally. by rewrite Hm, Hf. Qed.

Lemma checkEmpty_after_load (imports : Imports) (s : State) :
  items (quickPick (this s)) ≠ [] →
  (s ← get; checkEmpty imports (Some (bool_decide (1 < pendingUpdates (this s))))) s
  = (Normal tt, s).
Proof. intros H. unfold mbind, M_bind, get. by apply checkEmpty_nonempty. Qed.

Section Streams.

Context (imports : Imports).

(** X11. [loadFromAsyncIterable] stops at the first result that is marked
    [done], that arrives after the picker was hidden, or whose [next()]
    rejects: what the stream would give after it has no effect. *)
Theorem stream_is_not_pulled_after_its_end (pre rest : list Pull) (last : Pull) :
  last_pull last →
  loadFromAsyncIterable imports (pre ++ last :: rest)
  = loadFromAsyncIterable imports (pre ++ [last]).
Proof.
  intros Hlast. induction pre as [|p pre IH]; simpl.
  - unfold last_pull in Hlast. destruct (next last) as [r|e]; [|done].
    destruct (done r); [done|]. destruct Hlast as [?|Hh]; [done|]. by rewrite Hh.
  - destruct (next p) as [r|e]; [|done]. by rewrite IH.
Qed.

Lemma loadFromAsyncIterable_yields (batches : list (list Item)) (tail : list Pull) :
  loadFromAsyncIterable imports (yields batches ++ tail)
  = foldr (λ b k, appendItems imports b;; k) (loadFromAsyncIterable imports tail) batches.
Proof.
  induction batches as [|b batches IH]; [done|].
  simpl. by rewrite IH.
Qed.

Lemma append_batches (batches : list (list Item)) (k : M State unit) (s : State) :
  Forall is_Some (activeItems (quickPick (this s))) →
  Forall (λ b, b ≠ []) batches →
  ∃ s', foldr (λ b k, appendItems imports b;; k) k batches s = k s'
    ∧ items (quickPick (this s'))
      ≡ₚ items (quickPick (this s))
         ++ (applyDescriptionSuffix (localizedText_recentlyUsed imports) <$> concat batches)
    ∧ Forall is_Some (activeItems (quickPick (this s')))
    ∧ options (this s') = options (this s)
    ∧ isShowingPlaceholder (this s') = isShowingPlaceholder (this s)
    ∧ pendingUpdates (this s') = pendingUpdates (this s)
    ∧ DEFAULT_ERROR_ITEM s' = DEFAULT_ERROR_ITEM s.
Proof.
  intros Hactive Hbatches. revert s Hactive.
  induction Hbatches as [|b batches Hb _ IH]; intros s Hactive.
  - exists s. simpl. by rewrite app_nil_r.
  - destruct (defined_arguments _ Hactive) as [act Hact].
    destruct (appendItems_defined imports b s act Hact)
      as (s1 & Hrun & Hitems & Hhl & Hopt & Hflag & Hpend & _ & Hdef).
    assert (items (quickPick (this s1))
            ≡ₚ items (quickPick (this s))
               ++ (applyDescriptionSuffix (localizedText_recentlyUsed imports) <$> b))
      as Hperm by (rewrite Hitems; apply appended_perm).
    destruct (IH s1) as (s' & Hrest & Hitems' & Hactive' & Hopt' & Hflag' & Hpend' & Hdef').
    { rewrite Hhl. apply highlighted_defined. rewrite <- Hitems.
      by eapply nonempty_after. }
    exists s'. split.
    { simpl. unfold mbind at 1. unfold M_bind. by rewrite Hrun. }
    split.
    { rewrite Hitems', Hperm. simpl. by rewrite fmap_app, app_assoc. }
    split; [done|]. repeat split; congruence.
Qed.

Lemma loadItems_stream_run (pulls : list Pull) (s : State) :
  loadItems imports (ItemsAsyncIterable pulls) None s
  = addBusyUpdate
      (finally (catch (loadFromAsyncIterable imports pulls) (handleError imports))
         (s ← get; checkEmpty imports (Some (bool_decide (1 < pendingUpdates (this s))))))
      None (cleared s).
Proof.
  unfold loadItems, cleared, mbind at 1, M_bind, get. simpl.
  by destruct (truthy (isShowingPlaceholder (this s))).
Qed.

(** X12. A stream that yields batches, none of them empty, and then ends:
    [loadItems] resolves, the list is a permutation of the records listed
    before and all the records of all the batches, which is what loading the
    concatenation of the batches as one array shows; no placeholder is shown
    and the busy counter is back where it was. *)
Theorem stream_of_batches_loads_them_all (batches : list (list Item)) (rest : list Pull)
    (s : State) :
  Forall is_Some (activeItems (quickPick (this s))) →
  batches ≠ [] → Forall (λ b, b ≠ []) batches →
  ∃ s', loadItems imports
          (ItemsAsyncIterable
             (yields batches ++ mkPull (Fulfilled (mkIteratorResult None true)) false :: rest))
          None s = (Normal tt, s')
    ∧ items (quickPick (this s'))
      ≡ₚ items (quickPick (this (cleared s)))
         ++ (applyDescriptionSuffix (localizedText_recentlyUsed imports) <$> concat batches)
    ∧ items (quickPick (this s'))
      ≡ₚ items (quickPick (this (loadItems imports (ItemsArray (concat batches)) None s).2))
    ∧ truthy (isShowingPlaceholder (this s')) = false
    ∧ pendingUpdates (this s') = pendingUpdates (this s).
Proof.
  intros Hactive Hne Hbatches.
  rewrite loadItems_stream_run, loadFromAsyncIterable_yields, addBusyUpdate_run.
  set (s1 := on_this (λ p, set_pendingUpdates (S (pendingUpdates p)) p) (cleared s)).
  destruct (append_batches batches
              (loadFromAsyncIterable imports
                 (mkPull (Fulfilled (mkIteratorResult None true)) false :: rest)) s1)
    as (s2 & Hrun & Hitems & Hactive2 & Hopt & Hflag & Hpend & Hdef).
  { subst s1. simpl. by rewrite cleared_activeItems. }
  { done. }
  assert (items (quickPick (this s2)) ≠ []) as Hnonempty.
  { eapply nonempty_after; [|exact Hitems]. by apply concat_nonempty. }
  erewrite finally_run; cycle 1.
  { apply catch_normal. rewrite Hrun. reflexivity. }
  { by apply checkEmpty_after_load. }
  eexists. split; [done|]. cbn [fst snd].
  split; [done|]. split.
  { rewrite Hitems. rewrite loadItems_array_run.
    destruct (defined_arguments _ Hactive) as [act Hact].
    unfold mbind at 1. unfold M_bind.
    rewrite (appendItems_run imports _ (cleared s) (label <$> act))
      by (rewrite cleared_activeItems, Hact; apply labels_of_defined).
    rewrite checkEmpty_nonempty.
    - simpl. symmetry. apply appended_perm.
    - simpl. eapply nonempty_after; [|apply appended_perm]. by apply concat_nonempty. }
  split.
  { simpl. rewrite Hflag. subst s1. simpl. apply cleared_flag. }
  simpl. rewrite Hpend. subst s1. simpl. apply cleared_pendingUpdates.
Qed.

(** X13. A stream that yields batches, none of them empty, and then fails:
    [loadItems] resolves, the records of the batches yielded before the
    failure stay in the list, and one error row is added to them: the default
    error item, with the message of the failure for its detail if it has
    none; the list is marked as a placeholder. *)
Theorem failing_stream_keeps_earlier_batches (batches : list (list Item)) (e : Error)
    (wasHidden : bool) (rest : list Pull) (s : State) :
  errorItem (options (this s)) = Some (ErrOption (OptObject TheDefaultErrorItem)) →
  truthy (recentlyUsed (DEFAULT_ERROR_ITEM s)) = false →
  Forall is_Some (activeItems (quickPick (this s))) →
  Forall (λ b, b ≠ []) batches →
  let row := with_default_detail (message e) (DEFAULT_ERROR_ITEM s) in
  ∃ s', loadItems imports
          (ItemsAsyncIterable (yields batches ++ mkPull (Rejected e) wasHidden :: rest))
          None s = (Normal tt, s')
    ∧ items (quickPick (this s'))
      ≡ₚ items (quickPick (this (cleared s)))
         ++ (applyDescriptionSuffix (localizedText_recentlyUsed imports) <$> concat batches)
         ++ [row]
    ∧ isShowingPlaceholder (this s') = Some true.
Proof.
  intros Hopt Hplain Hactive Hbatches row.
  rewrite loadItems_stream_run, loadFromAsyncIterable_yields, addBusyUpdate_run.
  set (s1 := on_this (λ p, set_pendingUpdates (S (pendingUpdates p)) p) (cleared s)).
  destruct (append_batches batches
              (loadFromAsyncIterable imports (mkPull (Rejected e) wasHidden :: rest)) s1)
    as (s2 & Hrun & Hitems & Hactive2 & Hopt2 & Hflag & Hpend & Hdef).
  { subst s1. simpl. by rewrite cleared_activeItems. }
  { done. }
  destruct (defined_arguments _ Hactive2) as [act Hact].
  erewrite finally_run; cycle 1.
  { erewrite catch_throw; [|rewrite Hrun; reflexivity].
    unfold handleError. apply addErrorItem_default with (ls := label <$> act).
    - rewrite Hopt2. subst s1. simpl. by rewrite cleared_options.
    - rewrite Hdef. subst s1. simpl. by rewrite cleared_DEFAULT_ERROR_ITEM.
    - rewrite Hact. apply labels_of_defined. }
  { apply checkEmpty_after_load. simpl. intros E. apply (f_equal length) in E.
    rewrite Array_sort_length, length_app in E. simpl in E. lia. }
  eexists. split; [done|]. simpl. split; [|done].
  rewrite Array_sort_perm, Hitems, Hdef. subst s1. simpl.
  rewrite cleared_DEFAULT_ERROR_ITEM. by rewrite <- app_assoc.
Qed.

End Streams.

Lemma stream_is_not_pulled_after_its_end_witness :
  loadFromAsyncIterable sample_imports
    (yields [[item "a" VNull]]
     ++ mkPull (Fulfilled (mkIteratorResult None true)) false
     :: yields [[item "b" VNull]])
  = loadFromAsyncIterable sample_imports
      (yields [[item "a" VNull]] ++ [mkPull (Fulfilled (mkIteratorResult None true)) false]).
Proof.
  apply (stream_is_not_pulled_after_its_end sample_imports (yields [[item "a" VNull]])
           (yields [[item "b" VNull]])
           (mkPull (Fulfilled (mkIteratorResult None true)) false)).
  left. reflexivity.
Defined.

Lemma stream_of_batches_loads_them_all_witness :
  ∃ s', loadItems sample_imports
          (ItemsAsyncIterable
             (yields [[item "a" VNull]; [used_item]]
              ++ mkPull (Fulfilled (mkIteratorResult None true)) false :: []))
          None (showing []) = (Normal tt, s')
    ∧ truthy (isShowingPlaceholder (this s')) = false.
Proof.
  destruct (stream_of_batches_loads_them_all sample_imports [[item "a" VNull]; [used_item]]
              [] (showing [])) as (s' & Hrun & _ & _ & Hflag & _).
  - constructor.
  - discriminate.
  - repeat constructor; discriminate.
  - exists s'. split; assumption.
Defined.

Lemma failing_stream_keeps_earlier_batches_witness :
  ∃ s', loadItems sample_imports
          (ItemsAsyncIterable
             (yields [[item "a" VNull]] ++ mkPull (Rejected (TypeError "down")) false :: []))
          None (showing []) = (Normal tt, s')
    ∧ isShowingPlaceholder (this s') = Some true.
Proof.
  destruct (failing_stream_keeps_earlier_batches sample_imports [[item "a" VNull]]
              (TypeError "down") false [] (showing [])) as (s' & Hrun & _ & Hflag).
  - reflexivity.
  - reflexivity.
  - constructor.
  - repeat constructor; discriminate.
  - exists s'. split; assumption.
Defined.

(** ** Recency, and the prompt *)

(** X14. On an empty list the setter of [recentItem] does not throw,
    whatever the value ([null] among them, on which the type guard throws as
    soon as there is a record to test): no record is there to be tested. The
    value is kept, the list stays empty, and an empty highlight becomes the
    one entry [items[0]], which is [undefined]. *)
Theorem recency_on_empty_list_never_throws (recent : JsValue) (s : State) :
  items (quickPick (this s)) = [] →
  ∃ s', set_recentItem recent s = (Normal tt, s')
    ∧ _recentItem (this s') = recent
    ∧ items (quickPick (this s')) = []
    ∧ activeItems (quickPick (this s'))
      = match activeItems (quickPick (this s)) with
        | [] => [None]
        | active => active
        end.
Proof.
  intros Hempty.
  unfold set_recentItem, matchRecentItem, mbind, M_bind, modify, get, lift. simpl.
  rewrite Hempty. simpl.
  destruct (activeItems (quickPick (this s))) as [|a act] eqn:Hact; simpl.
  - rewrite (selectItems_run [] []) by done. eexists. split; [done|]. simpl.
    by rewrite Hempty.
  - eexists. split; [done|]. simpl. by rewrite Hempty, Hact.
Qed.

Lemma recency_on_empty_list_never_throws_witness :
  (set_recentItem VNull (initial_state sample_imports DEFAULT_QUICKPICK_OPTIONS)).1 = Normal tt.
Proof.
  destruct (recency_on_empty_list_never_throws VNull
              (initial_state sample_imports DEFAULT_QUICKPICK_OPTIONS)) as (s' & -> & _).
  - reflexivity.
  - reflexivity.
Defined.

Lemma isRecentItem_record (s : State) (l : string) (i : Item) :
  _recentItem (this s) ≠ VUndefined →
  isDataQuickPickItem (_recentItem (this s)) = Normal true →
  get_property (_recentItem (this s)) "label" = Normal (VStr l) →
  isRecentItem s i = Normal (bool_decide (label i = l)).
Proof.
  intros Hdef Hitem Hlabel. unfold isRecentItem.
  by rewrite not_undefined, Hitem, Hlabel.
Qed.

(** X15. A recent selection that is itself an option record (an object with
    a string [label] and a [data] property) is matched by its label alone,
    without the recovery from data. If a listed record bears the label, the
    highlight becomes all the listed records that bear it and the recent
    selection is forgotten; if none does, the recent selection is kept and
    only an empty highlight is changed, to the first record. *)
Theorem recent_record_highlights_by_label (addr : nat) (props : list (string * JsValue))
    (l : string) (s : State) :
  lookup_prop "label" props = Some (VStr l) →
  is_Some (lookup_prop "data" props) →
  let recent := VObj addr props in
  let shown := items (quickPick (this s)) in
  ∃ s', set_recentItem recent s = (Normal tt, s')
    ∧ items (quickPick (this s')) = shown
    ∧ ((∃ x, x ∈ shown ∧ label x = l) →
       activeItems (quickPick (this s')) = Some <$> filter (λ x, label x = l) shown
       ∧ _recentItem (this s') = VUndefined)
    ∧ ((∀ x, x ∈ shown → label x ≠ l) →
       _recentItem (this s') = recent
       ∧ activeItems (quickPick (this s'))
         = match activeItems (quickPick (this s)) with
           | [] => [shown !! 0]
           | active => active
           end).
Proof.
  intros Hlabel Hdata recent shown.
  set (s1 := on_this (set_recentItem_field recent) s).
  assert (∀ i, isRecentItem s1 i = Normal (bool_decide (label i = l))) as Hrecent.
  { intros i. apply isRecentItem_record; subst s1 recent; simpl; [done| |by rewrite Hlabel].
    unfold isDataQuickPickItem. simpl. rewrite Hlabel. simpl.
    by rewrite bool_decide_eq_true_2. }
  destruct (find_completion_first (isRecentItem s1) (λ i, label i = l) shown)
    as (hit & Hhit & Hspec).
  { intros i _. eexists. split; [apply Hrecent|]. by rewrite bool_decide_eq_true. }
  unfold set_recentItem, mbind at 1, M_bind, modify. fold s1.
  unfold matchRecentItem, mbind at 1, M_bind, get.
  unfold mbind at 1, M_bind, lift.
  change (items (quickPick (this s1))) with shown. rewrite Hhit.
  destruct hit as [i|].
  - destruct Hspec as (k & Hk & Hli & _).
    assert (i ∈ shown) as Hi by (by eapply list_elem_of_lookup_2).
    unfold mbind, M_bind, modify.
    rewrite (selectItems_run [Some i] [label i]) by done.
    eexists. split; [done|]. split; [done|]. split.
    + intros _. simpl. change (items (quickPick (this s1))) with shown.
      rewrite highlighted_label by done. by rewrite Hli.
    + intros Hno. by destruct (Hno i Hi).
  - change (activeItems (quickPick (this s1))) with (activeItems (quickPick (this s))).
    destruct (activeItems (quickPick (this s))) as [|a act] eqn:Hact; simpl.
    + rewrite (selectItems_run [] []) by done.
      eexists. split; [done|]. split; [done|]. split.
      * intros (x & Hx & Hlx). by destruct (Hspec x Hx).
      * intros _. split; [done|]. simpl. change (items (quickPick (this s))) with shown.
        apply highlighted_none. intros x _ Hx. by apply elem_of_nil in Hx.
    + eexists. split; [done|]. split; [done|]. split.
      * intros (x & Hx & Hlx). by destruct (Hspec x Hx).
      * intros _. split; [done|]. simpl. done.
Qed.

Lemma recent_record_highlights_by_label_witness :
  ∃ s', set_recentItem (VObj 4 [("label", VStr "y"); ("data", VNum 9)])
          (showing [item "x" (VNum 1); item "y" (VNum 2)]) = (Normal tt, s')
    ∧ activeItems (quickPick (this s')) = [Some (item "y" (VNum 2))].
Proof.
  destruct (recent_record_highlights_by_label 4 [("label", VStr "y"); ("data", VNum 9)] "y"
              (showing [item "x" (VNum 1); item "y" (VNum 2)]))
    as (s' & Hrun & _ & Hmatch & _).
  - reflexivity.
  - by eexists.
  - exists s'. split; [assumption|]. apply Hmatch.
    exists (item "y" (VNum 2)). split; [|reflexivity]. right. left.
Defined.

Section Prompting.

Context (imports : Imports).

Lemma resolve_settled (l c : list Item) (p : Prompt) :
  choices p = Some c → choices (resolve l p) = Some c.
Proof. intros H. unfold resolve. simpl. by rewrite H. Qed.

Lemma acceptItems_settled (c : list Item) (p : Prompt) :
  choices p = Some c → choices (acceptItems p) = Some c.
Proof.
  intros H. unfold acceptItems. case_bool_decide; [done|].
  destruct (existsb _ _); [done|]. by apply resolve_settled.
Qed.

(** X16. Once the promise of the prompt is settled, no later acceptance or
    hiding changes what it is settled with. *)
Theorem first_outcome_wins (evs : list PickerEvent) (c : list Item) (p : Prompt) :
  choices p = Some c → choices (on_events imports evs p) = Some c.
Proof.
  revert p. induction evs as [|ev evs IH]; intros p Hp; [done|].
  simpl. apply IH. destruct ev as [selected|]; simpl.
  - by apply acceptItems_settled.
  - by apply resolve_settled.
Qed.

(** X17. Hiding the picker while the prompt waits settles the prompt with one
    record whose data is the EXIT signal; the result of the prompt is that
    signal, and the picker is not touched. *)
Theorem hiding_resolves_to_exit (p : Prompt) :
  choices p = None →
  instanceof_Function (WIZARD_EXIT imports) = false →
  ∃ chosen, choices (onDidHide imports p) = Some chosen
    ∧ prompt_result chosen = Fulfilled (WIZARD_EXIT imports)
    ∧ events (onDidHide imports p) = events p ++ [Resolved chosen]
    ∧ picker (onDidHide imports p) = picker p.
Proof.
  intros Hwaiting Hexit. eexists. unfold onDidHide, resolve. simpl. rewrite Hwaiting.
  split; [done|]. split; [|done].
  unfold prompt_result. simpl. by destruct (WIZARD_EXIT imports).
Qed.

End Prompting.

Lemma first_outcome_wins_witness :
  choices (on_events sample_imports [DidHide; DidAccept [item "x" VNull]]
             (mkPrompt new_picker (Some [item "y" VNull]) []))
  = Some [item "y" VNull].
Proof.
  apply (first_outcome_wins sample_imports [DidHide; DidAccept [item "x" VNull]]
           [item "y" VNull] (mkPrompt new_picker (Some [item "y" VNull]) [])).
  reflexivity.
Defined.

Lemma hiding_resolves_to_exit_witness :
  ∃ chosen, choices (onDidHide sample_imports (mkPrompt new_picker None [])) = Some chosen
    ∧ prompt_result chosen = Fulfilled (WIZARD_EXIT sample_imports).
Proof.
  destruct (hiding_resolves_to_exit sample_imports (mkPrompt new_picker None []))
    as (chosen & Hchosen & Hresult & _).
  - reflexivity.
  - reflexivity.
  - exists chosen. split; assumption.
Defined.

(** X18. [createLabelQuickPick] on an array that is not empty lists one
    record for each given record, under the same labels; accepting any one
    of them settles the prompt with it, and the result of the prompt is the
    label of the record. *)
Theorem label_is_the_result (imports : Imports) (l : list LabelQuickPickItem) :
  l ≠ [] →
  ∃ s', createLabelQuickPick imports (LabelArray l) = (Normal tt, s')
    ∧ label <$> items (quickPick (this s')) ≡ₚ item_label <$> l
    ∧ ∀ i p, i ∈ items (quickPick (this s')) →
        selectedItems (picker p) = [i] → choices p = None →
        choices (acceptItems p) = Some [i]
        ∧ prompt_result [i] = Fulfilled (VStr (label i)).
Proof.
  intros Hne. unfold createLabelQuickPick, createQuickPick, label_supply.
  rewrite loadItems_array_run.
  assert (cleared (initial_state imports DEFAULT_QUICKPICK_OPTIONS)
          = initial_state imports DEFAULT_QUICKPICK_OPTIONS) as -> by done.
  unfold mbind at 1. unfold M_bind.
  rewrite (appendItems_run imports _ _ []) by done.
  set (shown := appended imports _ _).
  assert (shown ≡ₚ with_label_as_data <$> l) as Hperm.
  { assert (applyDescriptionSuffix (localizedText_recentlyUsed imports)
              <$> (with_label_as_data <$> l) = with_label_as_data <$> l) as Hid.
    { rewrite <- list_fmap_compose. apply list_fmap_ext. intros k x _. reflexivity. }
    unfold shown. rewrite appended_perm. simpl. by rewrite Hid. }
  rewrite checkEmpty_nonempty.
  2:{ simpl. intros E. rewrite E in Hperm. apply Permutation_nil_l in Hperm.
      by destruct l. }
  eexists. split; [done|]. simpl. split.
  - rewrite Hperm, <- list_fmap_compose. done.
  - intros i p Hi Hsel Hwaiting. rewrite Hperm in Hi.
    apply list_elem_of_fmap in Hi as (x & -> & _).
    unfold acceptItems. rewrite Hsel. simpl. unfold resolve. simpl. by rewrite Hwaiting.
Qed.

Lemma label_is_the_result_witness :
  ∃ s', createLabelQuickPick sample_imports
          (LabelArray [mkLabelItem "yes" None None None; mkLabelItem "no" None None None])
        = (Normal tt, s')
    ∧ label <$> items (quickPick (this s')) ≡ₚ ["yes"; "no"].
Proof.
  destruct (label_is_the_result sample_imports
              [mkLabelItem "yes" None None None; mkLabelItem "no" None None None])
    as (s' & Hrun & Hlabels & _).
  - discriminate.
  - exists s'. split; assumption.
Defined.

(** ** More on the step estimator *)

Section Estimating.

Context (estimator : JsValue → Z) (transform : option (JsValue → JsValue)).

Lemma estimate_in_two_steps (i : Item) (e : Estimation) :
  estimate estimator transform i e
  = (r ← estimate_call estimator transform i; estimate_then estimator transform r) e.
Proof.
  unfold estimate, estimate_call, mbind, M_bind, get.
  destruct (truthy (skipEstimate i) || truthy (invalidSelection i)); [done|].
  destruct (estimates e !! hashItem i); [done|].
  destruct (data i) as [| | | | | | | | | |addr [d|err]]; try done.
  - by destruct (negb _).
  - by destruct (negb _).
Qed.

Lemma estimate_caches (i : Item) (n : Z) (e e1 : Estimation) :
  truthy (skipEstimate i) = false → truthy (invalidSelection i) = false →
  estimate estimator transform i e = (Normal n, e1) →
  estimates e1 !! hashItem i = Some n.
Proof.
  intros Hskip Hvalid. unfold estimate, mbind, M_bind, get. rewrite Hskip, Hvalid. simpl.
  destruct (estimates e !! hashItem i) as [m|] eqn:Hm.
  { intros [= <- <-]. done. }
  destruct (data i) as [| | | | | | | | | |addr [d|err]];
    try (intros [= <- <-]; simpl; apply lookup_insert_eq).
  - destruct (negb _); intros [= <- <-]; simpl; apply lookup_insert_eq.
  - destruct (negb _); [|done]. intros [= <- <-]; simpl; apply lookup_insert_eq.
Qed.

Lemma estimate_cached (j : Item) (n : Z) (e : Estimation) :
  truthy (skipEstimate j) = false → truthy (invalidSelection j) = false →
  estimates e !! hashItem j = Some n →
  estimate estimator transform j e = (Normal n, e).
Proof.
  intros Hskip Hvalid Hn. unfold estimate, mbind, M_bind, get.
  rewrite Hskip, Hvalid. simpl. by rewrite Hn.
Qed.

Lemma hashItem_fields (i j : Item) :
  label i = label j →
  default "" (description i) = default "" (description j) →
  default "" (detail i) = default "" (detail j) →
  hashItem i = hashItem j.
Proof. intros Hl Hd Ht. unfold hashItem. by rewrite Hl, Hd, Ht. Qed.

(** X19. Estimates are kept under the label, description and detail of a
    record, an unset description or detail counting as the empty string.
    Once a record has been estimated, any record with the same three
    (whatever its data), and the record itself, gets the same estimate with
    no further call of a thunk or of the estimator. *)
Theorem estimate_is_shared_by_hash (i j : Item) (n : Z) (e e1 : Estimation) :
  truthy (skipEstimate i) = false → truthy (invalidSelection i) = false →
  truthy (skipEstimate j) = false → truthy (invalidSelection j) = false →
  label i = label j →
  default "" (description i) = default "" (description j) →
  default "" (detail i) = default "" (detail j) →
  estimate estimator transform i e = (Normal n, e1) →
  estimate estimator transform j e1 = (Normal n, e1)
  ∧ estimate estimator transform i e1 = (Normal n, e1).
Proof.
  intros Hskip Hvalid Hskipj Hvalidj Hl Hd Ht Hrun.
  pose proof (hashItem_fields i j Hl Hd Ht) as Hhash.
  pose proof (estimate_caches i n e e1 Hskip Hvalid Hrun) as Hcached.
  split; apply estimate_cached; try done. by rewrite <- Hhash.
Qed.

(** X20. A record whose thunk is to be called ([skipEstimate] is [false])
    and rejects: the estimate is the rejection, the estimator is not called
    and nothing is cached, so the next estimate of the record calls the
    thunk again. *)
Theorem rejected_thunk_is_called_again (i : Item) (addr : nat) (err : Error)
    (e : Estimation) :
  data i = VFun addr (Rejected err) →
  skipEstimate i = Some false →
  truthy (invalidSelection i) = false →
  estimates e !! hashItem i = None →
  let e1 := mkEstimation (estimates e) (calls e ++ [ThunkCalled addr]) in
  estimate estimator transform i e = (Throw err, e1)
  ∧ estimate estimator transform i e1
    = (Throw err, mkEstimation (estimates e) (calls e ++ [ThunkCalled addr; ThunkCalled addr])).
Proof.
  intros Hdata Hskip Hvalid Hmiss e1.
  unfold estimate, mbind, M_bind, get. rewrite Hskip, Hvalid. simpl.
  rewrite Hmiss, Hdata. simpl. split; [done|]. by rewrite <- app_assoc.
Qed.










End Estimating.

Lemma estimate_is_shared_by_hash_witness :
  estimate (λ _, 3%Z) None (item "a" (VNum 2))
    (estimate (λ _, 3%Z) None (item "a" (VNum 1)) (mkEstimation ∅ [])).2
  = (Normal 3%Z, mkEstimation (<["a::" := 3%Z]> ∅) [EstimatorCalled (VNum 1)]).
Proof.
  apply (estimate_is_shared_by_hash (λ _, 3%Z) None (item "a" (VNum 1)) (item "a" (VNum 2))
           3%Z (mkEstimation ∅ [])
           (mkEstimation (<["a::" := 3%Z]> ∅) [EstimatorCalled (VNum 1)]));
    reflexivity.
Defined.

Lemma rejected_thunk_is_called_again_witness :
  estimate (λ _, 3%Z) None
    (mkItem "next" None None None (VFun 5 (Rejected (TypeError "down"))) None None
            (Some false) None)
    (mkEstimation ∅ [])
  = (Throw (TypeError "down"), mkEstimation ∅ [ThunkCalled 5]).
Proof.
  apply (rejected_thunk_is_called_again (λ _, 3%Z) None
           (mkItem "next" None None None (VFun 5 (Rejected (TypeError "down"))) None None
                   (Some false) None)
           5 (TypeError "down") (mkEstimation ∅ []));
    reflexivity.
Defined.



(** ** More on the filter box *)

Lemma elem_of_insert_inv {A} (l : list A) (i : nat) (x y : A) :
  x ∈ <[i := y]> l → x = y ∨ x ∈ l.
Proof.
  revert i. induction l as [|z l IH]; intros i; [by right|].
  destruct i as [|i]; simpl.
  - intros [->|Hx]%elem_of_cons; [by left|]. right. by right.
  - intros [->|Hx]%elem_of_cons; [right; left|].
    destruct (IH i Hx) as [->|?]; [by left|]. right. by right.
Qed.

(** What one call of [update] with the picker's text leaves. *)
Lemma update_shows_text (b : FilterBox) :
  closures_clean b →
  shows_text (update (value (picker_of b)) b)
  ∧ closures_clean (update (value (picker_of b)) b).
Proof.
  intros (Htimer & Hreactions & Hpending).
  destruct b as [s st tm pv pval vs]. simpl in Htimer, Hreactions, Hpending.
  assert (∀ detail invalid l b',
            value (picker_of b') ≠ "" →
            items (picker_of b') = synthetic b' (value (picker_of b')) detail invalid :: others l →
            shows_text b') as Hshows.
  { intros detail invalid l b' Hne Hitems. exists (others l).
    split; [apply others_others|]. right. split; [done|]. by exists detail, invalid. }
  unfold update. case_bool_decide as Hv.
  - unfold validate_for. cbn [set_timer pendingValidation settings validator base
                              timer pendingValue validations].
    destruct pv as [p|].
    + split; [by eapply Hshows|].
      split; [|split].
      * intros q captured [= <- <-]. apply others_others.
      * intros v captured Hin. by apply Hreactions.
      * simpl. destruct pval as [w|]; simpl; congruence.
    + destruct (validator st) as [f|] eqn:Hf.
      * destruct (f _) as [r|r] eqn:Hr.
        -- split; [by eapply Hshows|]. split; [|split]; [done|done|done].
        -- split; [by eapply Hshows|].
           split; [|split].
           ++ intros q captured [= <- <-]. apply others_others.
           ++ intros v captured [Hin|Hin]%elem_of_app.
              ** by apply Hreactions.
              ** apply list_elem_of_singleton in Hin as ->. simpl.
                 by intros ?%elem_of_nil.
           ++ simpl. destruct pval as [w|]; simpl; congruence.
      * split; [by eapply Hshows|]. split; [|split]; [done|done|done].
  - split.
    + eexists. split; [|by left]. apply others_others.
    + split; [|split]; [done|done|done].
Qed.

Lemma validated_shows_text (captured : list Item) (result : option string) (b : FilterBox) :
  closures_clean b → others captured = captured →
  shows_text (validated captured result b) ∧ closures_clean (validated captured result b).
Proof.
  intros (Htimer & Hreactions & Hpending) Hcaptured.
  unfold validated. case_bool_decide as Hstale.
  - apply (update_shows_text (set_pendingValue None (set_pendingValidation None b))).
    split; [|split]; done.
  - simpl in Hstale. split.
    + exists captured. split; [done|]. right. split.
      * simpl. intros Hempty. apply Hpending. by rewrite Hstale, <- Hempty.
      * by eexists _, _.
    + split; [|split]; done.
Qed.

Lemma busy_shows_text (g : nat → nat) (b : FilterBox) :
  shows_text b ∧ closures_clean b → shows_text (busy g b) ∧ closures_clean (busy g b).
Proof. done. Qed.

Lemma handle_shows_text (ev : Event) (b : FilterBox) :
  shows_text b ∧ closures_clean b →
  shows_text (handle ev b) ∧ closures_clean (handle ev b).
Proof.
  intros [Hshows Hclean]. pose proof Hclean as (Htimer & Hreactions & Hpending).
  destruct ev as [text| |p]; simpl.
  - apply (update_shows_text (on_picker (set_value text) b)). done.
  - destruct (timer b) as [[p captured]|] eqn:Htm; [|done].
    simpl. destruct (validations b !! p) as [v|] eqn:Hv; simpl.
    + destruct (settled v).
      * apply busy_shows_text, validated_shows_text.
        -- split; [|split]; done.
        -- by apply (Htimer p).
      * split; [done|]. split; [|split]; [done| |done].
        intros w c [->|Hin]%elem_of_insert_inv; simpl.
        -- intros [Hc|Hc]%elem_of_app.
           ++ apply (Hreactions v); [|done]. by apply list_elem_of_lookup_2 in Hv.
           ++ apply list_elem_of_singleton in Hc as ->. by apply (Htimer p).
        -- by apply Hreactions.
    + split; [done|]. split; [|split]; done.
  - destruct (validations b !! p) as [v|] eqn:Hv; [|done].
    destruct (settled v); [done|].
    assert (Forall (λ c, others c = c) (reactions v)) as Hall.
    { apply Forall_forall. intros c Hc. apply (Hreactions v); [|done].
      by apply list_elem_of_lookup_2 in Hv. }
    set (b0 := set_validations _ b).
    assert (shows_text b0 ∧ closures_clean b0) as Hb0.
    { split; [done|]. split; [|split]; [done| |done].
      intros w c [->|Hin]%elem_of_insert_inv; simpl.
      - by intros ?%elem_of_nil.
      - by apply Hreactions. }
    clearbody b0. revert b0 Hb0.
    induction Hall as [|c cs Hc _ IH]; intros b0 Hb0; [done|].
    simpl. apply IH. apply busy_shows_text, validated_shows_text; [apply Hb0|done].
Qed.

(** X23. In every state a filter box reaches from its construction by text
    changes, timeouts and resolutions of validator promises: the synthetic
    record is in the list exactly when the filter text is not empty; it is
    then the first record and the only synthetic one, and its description is
    the filter text. The lists the pending callbacks closed over hold no
    synthetic record, and no validation is pending for the empty text. *)
Theorem reachable_shows_text (b : FilterBox) :
  reachable b → shows_text b ∧ closures_clean b.
Proof.
  induction 1 as [s input|ev b _ IH].
  - apply (update_shows_text (mkFilterBox s input None None None [])).
    split; [|split]; [done| |done]. by intros v c ?%elem_of_nil.
  - by apply handle_shows_text.
Qed.

Lemma reachable_shows_text_witness :
  shows_text (run [ChangeValue "abc"; TimeoutFires; ChangeValue "abcd"] name_box).
Proof.
  apply (reachable_shows_text
           (run [ChangeValue "abc"; TimeoutFires; ChangeValue "abcd"] name_box)).
  apply reachable_handle, reachable_handle, reachable_handle, reachable_new.
Defined.

Lemma timeout_runs_settled (b : FilterBox) (p : nat) (captured l : list Item) (text : string)
    (n : nat) (pending : option nat) (pendingFor : option string)
    (vs : list ValidationPromise) (v : ValidationPromise) :
  p = length vs → settled v = true →
  handle TimeoutFires
    (filter_box b l text n (Some (p, captured)) pending pendingFor (vs ++ [v]))
  = busy pred (validated captured (outcome v)
                 (filter_box b l text (S n) None pending pendingFor (vs ++ [v]))).
Proof.
  intros -> Hv. unfold handle. simpl.
  rewrite list_lookup_middle by done. by rewrite Hv.
Qed.

Lemma update_immediate (b : FilterBox) (f : string → Validation) (t : string)
    (r : option string) (l : list Item) (text : string) (n : nat)
    (tm : option (nat * list Item)) (pendingFor : option string)
    (vs : list ValidationPromise) :
  validator (settings b) = Some f → t ≠ "" → f t = Immediately r →
  update t (filter_box b l text n tm None pendingFor vs)
  = filter_box b (synthetic b text (default "" r) (reports_failure r) :: others l) text n
               None None pendingFor vs.
Proof.
  intros Hf Ht Hr. unfold update. rewrite bool_decide_eq_true_2 by done.
  unfold validate_for. simpl. rewrite Hf, Hr. reflexivity.
Qed.

Lemma update_unvalidated (b : FilterBox) (t : string) (l : list Item) (text : string)
    (n : nat) (tm : option (nat * list Item)) (pendingFor : option string)
    (vs : list ValidationPromise) :
  validator (settings b) = None → t ≠ "" →
  update t (filter_box b l text n tm None pendingFor vs)
  = filter_box b (synthetic b text "" false :: others l) text n None None pendingFor vs.
Proof.
  intros Hf Ht. unfold update. rewrite bool_decide_eq_true_2 by done.
  unfold validate_for. simpl. rewrite Hf. reflexivity.
Qed.

(** X24. With an asynchronous validator and nothing pending, after the text
    becomes [t] the synthetic record reads 'Checking...' and is invalid until
    both the timeout has fired and the promise has resolved; once both have
    happened, in either order, the filter box is in one and the same state:
    the record carries the validator's result for [t], nothing is pending
    and the busy counter is back where it was. *)
Theorem validation_completes_in_either_order (t : string) (r : option string)
    (f : string → Validation) (b : FilterBox) :
  validator (settings b) = Some f → f t = Eventually r → t ≠ "" →
  pendingValidation b = None → pendingValue b = None →
  let p := length (validations b) in
  let done := filter_box b
                (synthetic b t (default "" r) (reports_failure r)
                 :: others (items (picker_of b)))
                t (pendingUpdates (this (base b))) None None None
                (validations b ++ [mkValidationPromise t r true []]) in
  inputItem (run [ChangeValue t] b) = Some (synthetic b t "Checking..." true)
  ∧ inputItem (run [ChangeValue t; TimeoutFires] b) = Some (synthetic b t "Checking..." true)
  ∧ inputItem (run [ChangeValue t; Resolves p] b) = Some (synthetic b t "Checking..." true)
  ∧ run [ChangeValue t; TimeoutFires; Resolves p] b = done
  ∧ run [ChangeValue t; Resolves p; TimeoutFires] b = done.
Proof.
  intros Hf Hr Ht Hpv Hpval p done. subst p done.
  set (l := items (picker_of b)). set (vs := validations b).
  set (n := pendingUpdates (this (base b))).
  assert (handle (ChangeValue t) b
          = filter_box b (synthetic b t "Checking..." true :: others l) t n
                       (Some (length vs, others l)) (Some (length vs)) (Some t)
                       (vs ++ [mkValidationPromise t r false []])) as Hchange.
  { rewrite (filter_box_eta b) at 1. rewrite Hpv, Hpval, changes_value.
    by rewrite (update_requests b f Hf t r). }
  rewrite !run_cons, !Hchange.
  split; [done|].
  rewrite !(timeout_attaches b) by done.
  split; [done|].
  rewrite !(resolves_runs b) by done.
  cbn [run foldl reactions outcome requested_for app].
  split; [done|].
  rewrite validated_current, busy_filter_box. split; [done|].
  rewrite (timeout_runs_settled b) by done. cbn [outcome].
  by rewrite validated_current, busy_filter_box.
Qed.

Lemma validation_completes_in_either_order_witness :
  run [ChangeValue "abc"; TimeoutFires; Resolves 0] name_box
  = run [ChangeValue "abc"; Resolves 0; TimeoutFires] name_box
  ∧ inputItem (run [ChangeValue "abc"; Resolves 0; TimeoutFires] name_box)
    = Some (synthetic name_box "abc" "" false).
Proof.
  destruct (validation_completes_in_either_order "abc" None
              (λ text, if bool_decide (String.length text = 3) then Eventually None
                       else Eventually (Some "Must be 3 characters long"))
              name_box) as (_ & _ & _ & H1 & H2).
  - reflexivity.
  - reflexivity.
  - discriminate.
  - reflexivity.
  - reflexivity.
  - split; [exact (eq_trans H1 (eq_sym H2))|].
    exact (eq_trans (f_equal inputItem H2) eq_refl).
Defined.

(** X25. The text becomes [t1] and then another text [t2] before the timeout
    has fired. When the validation requested for [t1] resolves, its result
    is not shown: the record for [t2] reads 'Checking...' and a validation
    is requested for [t2]. When that one has resolved after its timeout, the
    record carries the result for [t2]. *)
Theorem superseded_validation_is_redone (t1 t2 : string) (r1 r2 : option string)
    (f : string → Validation) (b : FilterBox) :
  validator (settings b) = Some f →
  f t1 = Eventually r1 → f t2 = Eventually r2 →
  t1 ≠ "" → t2 ≠ "" → t1 ≠ t2 →
  pendingValidation b = None → pendingValue b = None →
  let p := length (validations b) in
  let b1 := run [ChangeValue t1; ChangeValue t2; TimeoutFires; Resolves p] b in
  let b2 := run [TimeoutFires; Resolves (S p)] b1 in
  inputItem b1 = Some (synthetic b t2 "Checking..." true)
  ∧ pendingValue b1 = Some t2
  ∧ validations b1 = validations b ++ [mkValidationPromise t1 r1 true [];
                                        mkValidationPromise t2 r2 false []]
  ∧ b2 = filter_box b
           (synthetic b t2 (default "" r2) (reports_failure r2)
            :: others (items (picker_of b)))
           t2 (pendingUpdates (this (base b))) None None None
           (validations b ++ [mkValidationPromise t1 r1 true [];
                              mkValidationPromise t2 r2 true []]).
Proof.
  intros Hf Hr1 Hr2 Ht1 Ht2 Hne Hpv Hpval p b1 b2.
  assert (b1 = filter_box b (synthetic b t2 "Checking..." true
                             :: others (items (picker_of b)))
                 t2 (pendingUpdates (this (base b)))
                 (Some (S p, others (items (picker_of b)))) (Some (S p)) (Some t2)
                 ((validations b ++ [mkValidationPromise t1 r1 true []])
                  ++ [mkValidationPromise t2 r2 false []])) as Hb1.
  { subst b1. rewrite (filter_box_eta b) at 1. rewrite Hpv, Hpval. subst p.
    set (l := items (picker_of b)). set (vs := validations b).
    set (n := pendingUpdates (this (base b))).
    rewrite run_cons, changes_value, (update_requests b f Hf t1 r1) by done.
    rewrite run_cons, changes_value, (update_reuses b) by done.
    rewrite others_synthetic, others_others.
    rewrite run_cons, (timeout_attaches b) by done.
    rewrite run_cons, (resolves_runs b) by done.
    cbn [run foldl reactions outcome requested_for app default].
    rewrite (validated_stale b f Hf _ _ r2) by done.
    rewrite busy_filter_box, others_synthetic, others_others.
    rewrite length_app, Nat.add_1_r. reflexivity. }
  split; [by rewrite Hb1|]. split; [by rewrite Hb1|].
  split; [rewrite Hb1; cbn [validations filter_box]; by rewrite <- app_assoc|].
  subst b2. rewrite Hb1.
  rewrite run_cons, (timeout_attaches b)
    by (try done; subst p; by rewrite length_app, Nat.add_1_r).
  rewrite run_cons, (resolves_runs b)
    by (try done; subst p; by rewrite length_app, Nat.add_1_r).
  cbn [run foldl reactions outcome requested_for app].
  rewrite validated_current, busy_filter_box. cbn [Nat.pred].
  by rewrite <- app_assoc.
Qed.

Lemma superseded_validation_is_redone_witness :
  inputItem (run [TimeoutFires; Resolves 1]
               (run [ChangeValue "abc"; ChangeValue "abcd"; TimeoutFires; Resolves 0]
                    name_box))
  = Some (synthetic name_box "abcd" "Must be 3 characters long" true).
Proof.
  destruct (superseded_validation_is_redone "abc" "abcd" None
              (Some "Must be 3 characters long")
              (λ text, if bool_decide (String.length text = 3) then Eventually None
                       else Eventually (Some "Must be 3 characters long"))
              name_box) as (_ & _ & _ & H).
  - reflexivity.
  - reflexivity.
  - reflexivity.
  - discriminate.
  - discriminate.
  - discriminate.
  - reflexivity.
  - reflexivity.
  - exact (eq_trans (f_equal inputItem H) eq_refl).
Defined.

(** X26. With no validation pending and a validator that answers at once (or
    no validator): on a change to a text that is not empty the synthetic
    record carries the verdict right away (the validator's message as its
    detail, invalid exactly when the message is a string that is not empty);
    no timeout is armed and no promise is kept. *)
Theorem synchronous_verdict_is_shown_at_once (t : string) (b : FilterBox) :
  t ≠ "" → pendingValidation b = None →
  (∀ f, validator (settings b) = Some f → ∃ r, f t = Immediately r) →
  let verdict := match validator (settings b) with
                 | Some f => match f t with Immediately r | Eventually r => r end
                 | None => None
                 end in
  handle (ChangeValue t) b
  = filter_box b
      (synthetic b t (default "" verdict) (reports_failure verdict)
       :: others (items (picker_of b)))
      t (pendingUpdates (this (base b))) None None (pendingValue b) (validations b).
Proof.
  intros Ht Hpv Hsync verdict. subst verdict.
  rewrite (filter_box_eta b) at 1. rewrite Hpv.
  rewrite changes_value.
  destruct (validator (settings b)) as [f|] eqn:Hf.
  - destruct (Hsync f eq_refl) as [r Hr]. rewrite Hr.
    by apply (update_immediate b f).
  - by apply update_unvalidated.
Qed.

(** X27. While a validation is pending, or when the validator answers with a
    promise, the synthetic record shown on a change to a text that is not
    empty reads 'Checking...' and is invalid; while one is pending the
    validator is not called again. A selection that holds that record does
    not settle the prompt. *)
Theorem checking_record_cannot_be_accepted (t : string) (f : string → Validation)
    (b : FilterBox) (p : Prompt) :
  t ≠ "" → validator (settings b) = Some f →
  (pendingValidation b = None → ∃ r, f t = Eventually r) →
  let b' := handle (ChangeValue t) b in
  inputItem b' = Some (synthetic b t "Checking..." true)
  ∧ (∀ q, pendingValidation b = Some q → validations b' = validations b)
  ∧ (synthetic b t "Checking..." true ∈ selectedItems (picker p) →
     choices (acceptItems p) = choices p).
Proof.
  intros Ht Hf Hasync b'. split; [|split].
  - subst b'. rewrite (filter_box_eta b) at 1. rewrite changes_value.
    destruct (pendingValidation b) as [q|] eqn:Hq.
    + by rewrite (update_reuses b).
    + destruct (Hasync eq_refl) as [r Hr].
      by rewrite (update_requests b f Hf t r).
  - intros q Hq. subst b'. rewrite (filter_box_eta b) at 1. rewrite changes_value, Hq.
    by rewrite (update_reuses b).
  - intros Hin. unfold acceptItems.
    case_bool_decide; [done|].
    rewrite (proj2 (existsb_exists _ _)); [done|].
    exists (synthetic b t "Checking..." true). split; [|done].
    by apply list_elem_of_In.
Qed.

Lemma checking_record_cannot_be_accepted_witness :
  inputItem (handle (ChangeValue "abc") name_box)
  = Some (synthetic name_box "abc" "Checking..." true)
  ∧ choices (acceptItems
               (mkPrompt (mkPicker [] [] [synthetic name_box "abc" "Checking..." true]
                                   "abc" None None) None [])) = None.
Proof.
  destruct (checking_record_cannot_be_accepted "abc"
              (λ text, if bool_decide (String.length text = 3) then Eventually None
                       else Eventually (Some "Must be 3 characters long"))
              name_box
              (mkPrompt (mkPicker [] [] [synthetic name_box "abc" "Checking..." true]
                                  "abc" None None) None []))
    as (H1 & _ & H2).
  - discriminate.
  - reflexivity.
  - intros _. by exists None.
  - split; [exact H1|]. apply H2. left.
Defined.

Lemma synchronous_verdict_is_shown_at_once_witness :
  inputItem (handle (ChangeValue "abc")
               (new_FilterBoxQuickPickPrompter (showing [item "a" (VNum 1)])
                  (mkFilterBoxInput "Enter a name" VStr None None)))
  = Some (mkItem "Enter a name" (Some "abc") (Some "") (Some true) CUSTOM_USER_INPUT
                 (Some false) None None None).
Proof.
  rewrite (synchronous_verdict_is_shown_at_once "abc"
             (new_FilterBoxQuickPickPrompter (showing [item "a" (VNum 1)])
                (mkFilterBoxInput "Enter a name" VStr None None))).
  - reflexivity.
  - discriminate.
  - reflexivity.
  - intros f Hf. discriminate Hf.
Defined.

(** X28. In a reachable filter box that shows the synthetic record: the
    result of a prompt settled with that record is the [CUSTOM_USER_INPUT]
    symbol, which the transform installed by the constructor maps to
    [settings.transform] of the filter text (the symbol itself if that is
    nullish); the text is the description of the record and is not empty.
    The data of every other listed record passes through unchanged. *)
Theorem accepted_text_is_transformed (b : FilterBox) (i : Item) :
  reachable b → inputItem b = Some i →
  prompt_result [i] = Fulfilled CUSTOM_USER_INPUT
  ∧ description i = Some (value (picker_of b))
  ∧ value (picker_of b) ≠ ""
  ∧ FilterBox_transform b (data i)
    = (if nullish (transform (settings b) (value (picker_of b))) then CUSTOM_USER_INPUT
       else transform (settings b) (value (picker_of b)))
  ∧ ∀ j, j ∈ items (picker_of b) → j ≠ i → FilterBox_transform b (data j) = data j.
Proof.
  intros Hreach Hinput.
  assert (shows_text b ∧ closures_clean b) as [Hshows _].
  { clear Hinput. induction Hreach as [s input|ev b' _ IH].
    - apply (update_shows_text (mkFilterBox s input None None None [])).
      split; [|split]; [done| |done]. by intros v c ?%elem_of_nil.
    - by apply handle_shows_text. }
  destruct Hshows as (rest & Hrest & [[Hv Hitems]|(Hv & detail & invalid & Hitems)]).
  - unfold inputItem in Hinput. rewrite Hitems, <- Hrest in Hinput.
    exfalso. unfold others in Hinput.
    destruct (filter _ (filter _ rest)) as [|x xs] eqn:Hf; [done|].
    assert (x ∈ filter (λ i, strict_equal (data i) CUSTOM_USER_INPUT)
                       (filter (λ i, negb (strict_equal (data i) CUSTOM_USER_INPUT)) rest))
      as Hx by (rewrite Hf; left).
    apply list_elem_of_filter in Hx as [Hx1 Hx2].
    apply list_elem_of_filter in Hx2 as [Hx2 _].
    by destruct (strict_equal (data x) CUSTOM_USER_INPUT).
  - unfold inputItem in Hinput. rewrite Hitems in Hinput.
    injection Hinput as <-. split; [done|]. split; [done|]. split; [done|].
    split; [done|].
    intros j Hj Hne. rewrite Hitems in Hj.
    apply elem_of_cons in Hj as [->|Hj]; [done|].
    rewrite <- Hrest in Hj. apply list_elem_of_filter in Hj as [Hj _].
    unfold FilterBox_transform.
    by destruct (strict_equal (data j) CUSTOM_USER_INPUT).
Qed.

Lemma accepted_text_is_transformed_witness :
  FilterBox_transform (handle (ChangeValue "abc") name_box) CUSTOM_USER_INPUT
  = VObj 9 [("name", VStr "abc")].
Proof.
  destruct (accepted_text_is_transformed (handle (ChangeValue "abc") name_box)
              (synthetic name_box "abc" "Checking..." true)) as (_ & _ & _ & H & _).
  - apply reachable_handle, reachable_new.
  - reflexivity.
  - exact H.
Defined.

(** X29. The callback of a validation puts back the list its [update] call
    saw: after the text became [t] and the timeout fired, whatever the list
    has become in the meantime, the resolution of the validation leaves the
    synthetic record followed by the records that were listed when the text
    was typed. *)
Theorem validation_shows_list_seen_when_typed (t : string) (r : option string)
    (f : string → Validation) (later : list Item) (b : FilterBox) :
  validator (settings b) = Some f → f t = Eventually r → t ≠ "" →
  pendingValidation b = None → pendingValue b = None →
  let p := length (validations b) in
  let b1 := on_picker (set_items later) (run [ChangeValue t; TimeoutFires] b) in
  items (picker_of b1) = later
  ∧ items (picker_of (handle (Resolves p) b1))
    = synthetic b t (default "" r) (reports_failure r) :: others (items (picker_of b)).
Proof.
  intros Hf Hr Ht Hpv Hpval p b1. split; [done|]. subst b1 p.
  set (l := items (picker_of b)). set (vs := validations b).
  set (n := pendingUpdates (this (base b))).
  assert (handle (ChangeValue t) b
          = filter_box b (synthetic b t "Checking..." true :: others l) t n
                       (Some (length vs, others l)) (Some (length vs)) (Some t)
                       (vs ++ [mkValidationPromise t r false []])) as Hchange.
  { rewrite (filter_box_eta b) at 1. rewrite Hpv, Hpval, changes_value.
    by rewrite (update_requests b f Hf t r). }
  rewrite !run_cons, Hchange, (timeout_attaches b) by done.
  change (on_picker (set_items later) (run [] ?x)) with (on_picker (set_items later) x).
  change (on_picker (set_items later)
            (filter_box b ?l0 ?text ?n0 ?tm ?pv ?pval ?vs0))
    with (filter_box b later text n0 tm pv pval vs0).
  rewrite (resolves_runs b) by done.
  cbn [foldl reactions outcome requested_for app].
  by rewrite validated_current, busy_filter_box.
Qed.

Lemma validation_shows_list_seen_when_typed_witness :
  items (picker_of (handle (Resolves 0)
                      (on_picker (set_items [item "late" (VNum 1)])
                         (run [ChangeValue "abc"; TimeoutFires] name_box))))
  = [synthetic name_box "abc" "" false].
Proof.
  apply (validation_shows_list_seen_when_typed "abc" None
           (λ text, if bool_decide (String.length text = 3) then Eventually None
                    else Eventually (Some "Must be 3 characters long"))
           [item "late" (VNum 1)] name_box).
  - reflexivity.
  - reflexivity.
  - discriminate.
  - reflexivity.
  - reflexivity.
Defined.
